(** * THU RSVP dataset: trial extraction and checksum-gated caching

    A shallow embedding of [thu_rsvp_dataset/utils.py], [worker.py],
    [files.py] and [thu.py], with the properties of the extraction and
    caching pipeline proved about it.

    Conventions.
    - Python integers are [Z]; array indices that the code computes are [Z]
      as well, and lengths of lists are [nat].
    - A path is a [string]; the file system is a finite map from paths to
      the bytes of regular files.
    - A Python [str] is a [string].  Text files are read and written
      through the encoding of the locale, which may refuse bytes and
      characters.
    - A raised exception is a value of [exn], carried on the left of a sum.
    - A Python [float] is an IEEE 754 binary64 number ([spec_float] at
      precision 53): [a / b] and [x * y] round to the nearest float, ties
      to even.  The rational a finite float denotes is its [finite_value];
      [a // q] and [int(x)] are computed on it. *)

From Stdlib Require Import ZArith QArith Qround SpecFloat.
From stdpp Require Import base tactics option list numbers strings pretty gmap relations.

#[local] Open Scope Z_scope.
#[local] Set Default Proof Using "Type".

(** ** Exceptions and the error monad *)

Inductive exn : Type :=
  | KeyError
  | IndexError
  | ValueError
  | ZeroDivisionError
  | OverflowError
  | FileNotFoundError
  | UnicodeDecodeError
  | UnicodeEncodeError
  | TransformError.

#[global] Instance exn_eq_dec : EqDecision exn.
Proof. solve_decision. Defined.

Definition result (A : Type) : Type := exn + A.

Abbreviation Ok := (@inr exn _).
Abbreviation Raise := (@inl exn _).

Definition rbind {A B} (m : result A) (k : A → result B) : result B :=
  match m with
  | inl e => inl e
  | inr a => k a
  end.

Notation "x ←! m ; k" := (rbind m (λ x, k))
  (at level 20, m at level 100, k at level 200, right associativity,
   format "x  ←!  m ;  '/' k").
Notation "' p ←! m ; k" := (rbind m (λ p, k))
  (at level 20, p pattern, m at level 100, k at level 200, right associativity).

Definition of_option {A} (e : exn) (o : option A) : result A :=
  match o with
  | Some a => Ok a
  | None => Raise e
  end.

(** ** utils.py: the integrity verifier *)

Abbreviation bytes := (list Byte.byte).
Abbreviation path := string.
Abbreviation filesystem := (gmap string (list Byte.byte)).

(** The interface of a [hashlib] hash object: a fresh state, [update] with
    a chunk, and the hexadecimal digest.  The two laws are those of every
    streaming digest: feeding the chunks one after the other is feeding
    their concatenation. *)
Class Hashlib := {
  hasher : Type;
  hash_new : hasher;
  hash_update : hasher → bytes → hasher;
  hash_hexdigest : hasher → string;
  hash_update_nil : ∀ h, hash_update h [] = h;
  hash_update_app : ∀ h a b,
    hash_update (hash_update h a) b = hash_update h (a ++ b);
}.

(** [DEFAULT_CHUNKSIZE = 10 * 1024 * 1024] *)
Definition DEFAULT_CHUNKSIZE : Z := 10 * 1024 * 1024.

(** [f.read(n)] on the unread rest of a file: at most [n] bytes when
    [0 <= n], everything when [n] is negative.  Returns the chunk and what
    is left. *)
Fixpoint read_upto (n : Z) (rest : bytes) : bytes * bytes :=
  match rest with
  | [] => ([], [])
  | b :: rest' =>
      if 0 <? n then
        let '(chunk, unread) := read_upto (n - 1) rest' in (b :: chunk, unread)
      else ([], rest)
  end.

Definition f_read (n : Z) (rest : bytes) : bytes * bytes :=
  if n <? 0 then (rest, []) else read_upto n rest.

Section Verifier.
Context `{Hashlib}.

(** The digest of a whole byte string, fed at once. *)
Definition sha256_hexdigest (content : bytes) : string :=
  hash_hexdigest (hash_update hash_new content).

(** [for chunk in iter(lambda: f.read(chunksize), b""): sha256.update(chunk)].
    Every round that does not stop consumes at least one byte, so
    [S (length rest)] rounds of fuel are never used up. *)
Fixpoint read_chunks (fuel : nat) (chunksize : Z) (h : hasher) (rest : bytes)
  : hasher :=
  match fuel with
  | O => h
  | S fuel' =>
      let '(chunk, unread) := f_read chunksize rest in
      match chunk with
      | [] => h
      | _ :: _ => read_chunks fuel' chunksize (hash_update h chunk) unread
      end
  end.

(** [file_sha256hash(filepath, chunksize)]; [open] raises when the file
    is missing. *)
Definition file_sha256hash (fs : filesystem) (filepath : path)
    (chunksize : Z) : result string :=
  content ←! of_option FileNotFoundError (fs !! filepath);
  Ok (hash_hexdigest
        (read_chunks (S (length content)) chunksize hash_new content)).

Definition path_exists (fs : filesystem) (p : path) : bool :=
  bool_decide (is_Some (fs !! p)).

(** [verify_file(file, sha256sum, verify_sha256, chunksize)] *)
Definition verify_file (fs : filesystem) (file : path) (sha256sum : string)
    (verify_sha256 : bool) (chunksize : Z) : result bool :=
  if negb (path_exists fs file) then Ok false
  else if negb verify_sha256 then Ok true
  else
    digest ←! file_sha256hash fs file chunksize;
    Ok (bool_decide (digest = sha256sum)).

End Verifier.

(** ** Text files

    [Path.read_text()] and [Path.write_text(data)] are called with no
    encoding: the file is opened in text mode, its bytes are decoded and
    encoded in the encoding of the locale with strict error handling, and
    newlines are translated.  [text_decode] is the text that reading a
    whole file of the given bytes returns, and [None] where the bytes are
    refused with a [UnicodeDecodeError]; [text_encode] is the bytes that
    writing a text puts in the file, and [None] where the text is refused
    with a [UnicodeEncodeError]. *)
Class TextMode := {
  text_decode : bytes → option string;
  text_encode : string → option bytes;
}.

Section TextFiles.
Context `{TextMode}.

(** [Path.read_text()]; [open] raises when the file is missing. *)
Definition read_text (fs : filesystem) (p : path) : result string :=
  content ←! of_option FileNotFoundError (fs !! p);
  of_option UnicodeDecodeError (text_decode content).

(** [Path.write_text(data)]: the file is created or replaced. *)
Definition write_text (fs : filesystem) (p : path) (data : string)
  : result filesystem :=
  content ←! of_option UnicodeEncodeError (text_encode data);
  Ok (<[p := content]> fs).

End TextFiles.

(** ** Python and NumPy primitives used by the worker and the coordinator *)

(** A list comprehension or a loop whose body may raise: the first error
    in iteration order is the one that propagates. *)
Fixpoint rmapM {A B} (f : A → result B) (l : list A) : result (list B) :=
  match l with
  | [] => Ok []
  | a :: l' => b ←! f a; bs ←! rmapM f l'; Ok (b :: bs)
  end.

(** A [for] loop threading a state through a body that may raise. *)
Fixpoint rfoldM {A C} (body : C → A → result C) (c : C) (l : list A)
  : result C :=
  match l with
  | [] => Ok c
  | a :: l' => c' ←! body c a; rfoldM body c' l'
  end.

(** [range(a, b)] *)
Definition py_range (a b : Z) : list Z := seqZ a (b - a).

(** [l[i]] with Python's negative indices; [IndexError] out of range. *)
Definition py_index {A} (l : list A) (i : Z) : result A :=
  let n := Z.of_nat (length l) in
  of_option IndexError
    (if (i <? - n) || (n <=? i) then None
     else l !! Z.to_nat (if i <? 0 then i + n else i)).

(** The bounds that the slice [a:b] denotes on a sequence of length [n]:
    negative indices count from the end, and both ends are clamped to
    [0..n].  A slice never raises. *)
Definition slice_bound (n i : Z) : Z :=
  if i <? 0 then Z.max (i + n) 0 else Z.min i n.

Definition py_slice {A} (l : list A) (a b : Z) : list A :=
  let n := Z.of_nat (length l) in
  let start := slice_bound n a in
  let stop := slice_bound n b in
  take (Z.to_nat (stop - start)) (drop (Z.to_nat start) l).

(** Python's [float]: binary64. *)
Definition float : Type := spec_float.
Definition prec : Z := 53.
Definition emax : Z := 1024.

(** The rational that the finite float of sign [s], mantissa [m] and
    exponent [e] denotes: [m * 2 ^ e], negated when [s] is set. *)
Definition finite_value (s : bool) (m : positive) (e : Z) : Q :=
  let n := if s then Z.neg m else Z.pos m in
  match e with
  | Z.neg p => n # 2 ^ p
  | _ => inject_Z (n * 2 ^ e)
  end.

Definition float_value (x : float) : option Q :=
  match x with
  | S754_zero _ => Some 0%Q
  | S754_finite s m e => Some (finite_value s m e)
  | S754_infinity _ | S754_nan => None
  end.

(** An integer of any size as an operand of a division: the mantissa is the
    integer itself, not yet rounded. *)
Definition int_operand (a : Z) : float :=
  match a with
  | 0 => S754_zero false
  | Z.pos p => S754_finite false p 0
  | Z.neg p => S754_finite true p 0
  end.

(** [a / b] on two integers: true division.  The quotient of the two
    integers is rounded once, to the nearest float; a quotient too large
    for a float is an [OverflowError]. *)
Definition true_div (a b : Z) : result float :=
  if b =? 0 then Raise ZeroDivisionError
  else match SFdiv prec emax (int_operand a) (int_operand b) with
       | S754_infinity _ | S754_nan => Raise OverflowError
       | q => Ok q
       end.

(** The conversion of the integer operand of [x * a]: the nearest float,
    and an [OverflowError] when there is none. *)
Definition float_of_int (a : Z) : result float :=
  match binary_normalize prec emax a 0 false with
  | S754_infinity _ | S754_nan => Raise OverflowError
  | x => Ok x
  end.

(** [x * a] for a float [x] and an integer [a]. *)
Definition float_mul_int (x : float) (a : Z) : result float :=
  y ←! float_of_int a;
  Ok (SFmul prec emax x y).

(** [int(x)] truncates towards zero, and refuses infinities and NaN. *)
Definition py_int (x : float) : result Z :=
  match x with
  | S754_zero _ => Ok 0
  | S754_finite s m e =>
      Ok (if s then Qceiling (finite_value s m e)
          else Qfloor (finite_value s m e))
  | S754_infinity _ => Raise OverflowError
  | S754_nan => Raise ValueError
  end.

(** [int(a // q)] for a NumPy number [a] of integer value and a float [q]:
    the floor of the quotient, for [a] and the quotient below [2 ^ 53] in
    magnitude.  Dividing by [0.0] gives an infinity or a NaN, which [int]
    refuses; dividing by an infinity gives [0.0] or [-1.0], by the sign of
    the quotient. *)
Definition floor_div (a : Z) (q : float) : result Z :=
  match q with
  | S754_zero _ => Raise (if a =? 0 then ValueError else OverflowError)
  | S754_finite s m e => Ok (Qfloor (inject_Z a / finite_value s m e))
  | S754_infinity s =>
      Ok (if (a =? 0) || bool_decide ((a <? 0) = s) then 0 else -1)
  | S754_nan => Raise ValueError
  end.

(** A two-dimensional array is the list of its rows. *)
Abbreviation matrix A := (list (list A)).

(** [m[idx]] with an index array: the rows picked in the order of [idx]. *)
Definition take_rows {A} (m : matrix A) (idx : list Z) : result (matrix A) :=
  rmapM (py_index m) idx.

(** [m[..., a:b]]: the slice taken along the last axis. *)
Definition slice_last_axis {A} (m : matrix A) (a b : Z) : matrix A :=
  (λ row, py_slice row a b) <$> m.

(** The shape of a two-dimensional array.  An array with no row has width
    [0] here. *)
Definition width {A} (m : matrix A) : nat := length (hd [] m).

Definition shape {A} (m : matrix A) : Z * Z :=
  (Z.of_nat (length m), Z.of_nat (width m)).

Definition rectangular {A} (m : matrix A) : bool :=
  forallb (λ row, bool_decide (length row = width m)) m.

(** ** worker.py: the session parser *)

(** The element types of the arrays: what the [.mat] files hold, and the
    [float32] of the extracted trials.  [np.empty] leaves its contents
    unspecified: [uninit] and [uninit_label] stand for whatever the
    allocation holds. *)
Class Samples := {
  raw : Type;
  sample : Type;
  astype_float32 : raw → sample;
  one : sample;
  uninit : sample;
  uninit_label : Z;
}.

Section Worker.
Context `{Samples}.

(** What [loadmat] returns for one session file. *)
Record mat_contents := {
  EEGdata1 : matrix raw;
  EEGdata2 : matrix raw;
  trigger_positions : matrix Z;
  class_labels : matrix Z;
}.

(** [loadmat(mat_file)], on the session files on disk as a map from their
    paths. *)
Definition loadmat (mats : gmap string mat_contents) (mat_file : path)
  : result mat_contents :=
  of_option FileNotFoundError (mats !! mat_file).

(** A transform takes the data and its sample rate, and returns the
    transformed data and the new rate; it may raise. *)
Definition transform_fn : Type := matrix sample → Z → result (matrix sample * Z).

Definition trial : Type := matrix sample.

(** The inner loop of [load_trials_one_session] over one block:
    [for i, trial_onset in enumerate(trial_onsets)], appending to
    [trial_data] and [trial_labels]. *)
Fixpoint block_loop (data : matrix sample) (labels : list Z)
    (downsample_factor : float) (trial_duration_samples : Z)
    (i : Z) (trial_onsets : list Z) (acc : list trial * list Z)
  : result (list trial * list Z) :=
  match trial_onsets with
  | [] => Ok acc
  | trial_onset :: rest =>
      converted_onset ←! floor_div trial_onset downsample_factor;
      let trial_data :=
        acc.1 ++ [slice_last_axis data converted_onset
                    (converted_onset + trial_duration_samples)] in
      label ←! py_index labels i;
      block_loop data labels downsample_factor trial_duration_samples
        (i + 1) rest (trial_data, acc.2 ++ [label])
  end.

(** Lines 24 to 30 of [load_trials_one_session]: the two blocks with the
    channels selected, cast to [float32] and transformed, and the final
    sample rate. *)
Definition session_blocks (contents : mat_contents) (channels_to_use : list Z)
    (original_sample_rate_hz : Z) (transform : option transform_fn)
  : result (matrix sample * matrix sample * Z) :=
  rows1 ←! take_rows (EEGdata1 contents) channels_to_use;
  let data1 := fmap (M:=list) astype_float32 <$> rows1 in
  rows2 ←! take_rows (EEGdata2 contents) channels_to_use;
  let data2 := fmap (M:=list) astype_float32 <$> rows2 in
  match transform with
  | Some transform =>
      '(data1, _) ←! transform data1 original_sample_rate_hz;
      '(data2, final_sample_rate_hz) ←! transform data2 original_sample_rate_hz;
      Ok (data1, data2, final_sample_rate_hz)
  | None => Ok (data1, data2, original_sample_rate_hz)
  end.

(** [load_trials_one_session(mat_file, channels_to_use,
    original_sample_rate_hz, trial_duration_samples, transform)] *)
Definition load_trials_one_session (mats : gmap string mat_contents)
    (mat_file : path)
    (channels_to_use : list Z) (original_sample_rate_hz : Z)
    (trial_duration_samples : Z) (transform : option transform_fn)
  : result (list trial * list Z) :=
  contents ←! loadmat mats mat_file;
  '(data1, data2, final_sample_rate_hz) ←!
    session_blocks contents channels_to_use original_sample_rate_hz transform;
  trial_onsets1 ←! py_index (trigger_positions contents) 0;
  trial_onsets2 ←! py_index (trigger_positions contents) 1;
  row1 ←! py_index (class_labels contents) 0;
  let labels1 := (λ l, l - 1) <$> row1 in
  row2 ←! py_index (class_labels contents) 1;
  let labels2 := (λ l, l - 1) <$> row2 in
  downsample_factor ←! true_div original_sample_rate_hz final_sample_rate_hz;
  acc ←! block_loop data1 labels1 downsample_factor trial_duration_samples
           0 trial_onsets1 ([], []);
  block_loop data2 labels2 downsample_factor trial_duration_samples
    0 trial_onsets2 acc.

End Worker.

(** The session files on disk, as [loadmat] reads them. *)
Abbreviation mat_store := (gmap string mat_contents).

(** ** files.py: static tables *)

(** [{x: folder for x in range(a, b)}] as the list of its items. *)
Definition folder_items (folder : string) (a b : Z) : list (Z * string) :=
  (λ x, (x, folder)) <$> py_range a b.

Definition WHICH_FOLDER_EACH_SUBJECT : gmap Z string :=
  list_to_map
    (folder_items "S1-S10.mat" 1 11 ++
     folder_items "S11-S20.mat" 11 21 ++
     folder_items "S21-S30.mat" 21 31 ++
     folder_items "S31-S40.mat" 31 41 ++
     folder_items "S41-S50.mat" 41 51 ++
     folder_items "S51-S60.mat" 51 61 ++
     folder_items "S61-S64.mat" 61 65).

(** ** thu.py: the dataset class *)

(** [a / b] on paths. *)
Definition path_join (a b : string) : string := a +:+ "/" +:+ b.

(** NumPy slice assignment [dest[a:b] = values] along the first axis: the
    values are broadcast to the length of the slice, which succeeds when
    there are exactly as many of them or exactly one. *)
Definition broadcast_axis {A} (n : nat) (l : list A) : result (list A) :=
  if decide (length l = n) then Ok l
  else match l with
       | [x] => Ok (replicate n x)
       | _ => Raise ValueError
       end.

Definition assign_slice {A} (dest : list A) (a b : Z) (values : list A)
  : result (list A) :=
  let n := Z.of_nat (length dest) in
  let start := Z.to_nat (slice_bound n a) in
  let count := Z.to_nat (slice_bound n b - slice_bound n a) in
  values ←! broadcast_axis count values;
  Ok (take start dest ++ values ++ drop (start + count)%nat dest).

Section Dataset.
Context `{Samples}.

(** [np.asarray] of a list of two-dimensional arrays: they must all have
    one shape.  Returns that shape ([None] for the empty list, whose array
    has shape [(0,)]). *)
Definition stack_shape (values : list trial) : result (option (Z * Z)) :=
  match values with
  | [] => Ok None
  | t :: _ =>
      if forallb (λ t', rectangular t' && bool_decide (shape t' = shape t)) values
      then Ok (Some (shape t))
      else Raise ValueError
  end.

(** One trial broadcast to the shape [(C, W)] of a row of the tensor. *)
Definition broadcast_trial (C W : nat) (t : trial) : result trial :=
  rows ←! rmapM (broadcast_axis W) t;
  broadcast_axis C rows.

(** [data[a:b] = values] for the three-dimensional tensor whose rows have
    shape [output_shape]. *)
Definition assign_trials (output_shape : Z * Z) (data : list trial) (a b : Z)
    (values : list trial) : result (list trial) :=
  shp ←! stack_shape values;
  match shp with
  | None => if output_shape.2 =? 0 then Ok data else Raise ValueError
  | Some _ =>
      values ←! rmapM (broadcast_trial (Z.to_nat output_shape.1)
                         (Z.to_nat output_shape.2)) values;
      assign_slice data a b values
  end.

(** [np.ones(shape)] and [np.empty(shape)]; a negative dimension raises. *)
Definition np_full {A} (x : A) (n : Z) : result (list A) :=
  if n <? 0 then Raise ValueError else Ok (replicate (Z.to_nat n) x).

Definition np_ones (rows cols : Z) : result (matrix sample) :=
  r ←! np_full one cols; np_full r rows.

Definition np_empty_data (n : Z) (output_shape : Z * Z) : result (list trial) :=
  r ←! np_full uninit output_shape.2;
  t ←! np_full r output_shape.1;
  np_full t n.

Definition np_empty_labels (n : Z) : result (list Z) := np_full uninit_label n.

(** The attributes of a [THU_RSVP_Dataset] object. *)
Record THU_RSVP_Dataset := {
  dir : path;
  trial_duration_ms : Z;
  transform : option transform_fn;
  download : bool;
  verbose : bool;
  verify_sha256 : bool;
  n_trials : Z;
  original_sample_rate_hz : Z;
  channels_to_use : list Z;
  n_channels : Z;
  force_extract : bool;
  final_sample_rate_hz : Z;
  output_shape : Z * Z;
  trial_duration_samples : Z;
}.

(** [int(trial_duration_ms / 1000 * rate)] *)
Definition duration_in_samples (trial_duration_ms rate : Z) : result Z :=
  seconds ←! true_div trial_duration_ms 1000;
  samples ←! float_mul_int seconds rate;
  py_int samples.

(** [np.r_[0:32, 33:42, 43:64]] *)
Definition default_channels : list Z :=
  py_range 0 32 ++ py_range 33 42 ++ py_range 43 64.

(** [THU_RSVP_Dataset.__init__] *)
Definition init (dir : path) (trial_duration_ms : Z)
    (transform : option transform_fn)
    (download verify_sha256 verbose force_extract : bool)
  : result THU_RSVP_Dataset :=
  let n_trials := 64 * 2 * 2 * 40 * 100 in
  let original_sample_rate_hz := 250 in
  let channels_to_use := default_channels in
  let n_channels := Z.of_nat (length channels_to_use) in
  '(final_sample_rate_hz, output_shape) ←!
    match transform with
    | Some transform =>
        dummy_duration ←!
          duration_in_samples trial_duration_ms original_sample_rate_hz;
        dummy_data ←! np_ones n_channels dummy_duration;
        '(dummy_output, final_sample_rate_hz) ←!
          transform dummy_data original_sample_rate_hz;
        Ok (final_sample_rate_hz, shape dummy_output)
    | None =>
        let final_sample_rate_hz := original_sample_rate_hz in
        duration ←!
          duration_in_samples trial_duration_ms final_sample_rate_hz;
        Ok (final_sample_rate_hz, (n_channels, duration))
    end;
  Ok {| dir := path_join dir "thu";
        trial_duration_ms := trial_duration_ms;
        transform := transform;
        download := download;
        verbose := verbose;
        verify_sha256 := verify_sha256;
        n_trials := n_trials;
        original_sample_rate_hz := original_sample_rate_hz;
        channels_to_use := channels_to_use;
        n_channels := n_channels;
        force_extract := force_extract;
        final_sample_rate_hz := final_sample_rate_hz;
        output_shape := output_shape;
        trial_duration_samples := output_shape.2 |}.

End Dataset.

(** ** The worker pool: [for x in pool.imap(func, tasks, chunksize=1)]

    The workers run [func] on the tasks and finish in any order.  Each
    finished task hands its outcome, tagged with the task's position, to
    the iterator that [imap] returned; the iterator releases outcomes to
    the main process in the order of the positions, holding back those
    that arrive early.  A worker's exception is an outcome like any other:
    it is raised again in the main process when its turn comes.  The main
    process runs the loop body on each released outcome. *)

Section Pool.
Context {T V C : Type}.
Variable func : T → result V.
Variable body : C → V → result C.
Variable tasks : list T.

(** The iterator's state: the position it will release next, the released
    outcomes the loop has not taken yet, and the outcomes held back. *)
Record IMapIterator := {
  it_index : nat;
  it_items : list (result V);
  it_unsorted : gmap nat (result V);
}.

(** [while self._index in self._unsorted: ...], one round per unit of
    fuel; every round removes an entry, so the size of the map is fuel
    enough. *)
Fixpoint release (fuel : nat) (it : IMapIterator) : IMapIterator :=
  match fuel with
  | O => it
  | S fuel' =>
      match it_unsorted it !! it_index it with
      | Some obj =>
          release fuel'
            {| it_index := S (it_index it);
               it_items := it_items it ++ [obj];
               it_unsorted := delete (it_index it) (it_unsorted it) |}
      | None => it
      end
  end.

(** [IMapIterator._set(i, obj)] *)
Definition iter_set (i : nat) (obj : result V) (it : IMapIterator)
  : IMapIterator :=
  if decide (it_index it = i) then
    release (size (it_unsorted it))
      {| it_index := S (it_index it);
         it_items := it_items it ++ [obj];
         it_unsorted := it_unsorted it |}
  else
    {| it_index := it_index it;
       it_items := it_items it;
       it_unsorted := <[i := obj]> (it_unsorted it) |}.

(** The whole system: the positions of the tasks no worker has finished
    yet, the iterator, and the main process (the state of its loop, or the
    exception that ended it). *)
Record pool_state := {
  running : gset nat;
  iter : IMapIterator;
  main : result C;
}.

Definition pool_init (c : C) : pool_state :=
  {| running := list_to_set (seq 0 (length tasks));
     iter := {| it_index := 0; it_items := []; it_unsorted := ∅ |};
     main := Ok c |}.

Inductive pool_step : pool_state → pool_state → Prop :=
  | step_finish st i t c :
      main st = Ok c →
      i ∈ running st →
      tasks !! i = Some t →
      pool_step st
        {| running := running st ∖ {[i]};
           iter := iter_set i (func t) (iter st);
           main := main st |}
  | step_next st c obj items :
      main st = Ok c →
      it_items (iter st) = obj :: items →
      pool_step st
        {| running := running st;
           iter := {| it_index := it_index (iter st);
                      it_items := items;
                      it_unsorted := it_unsorted (iter st) |};
           main := (v ←! obj; body c v) |}.

(** The loop is over when an exception has left it, or when the iterator
    has released every position and the loop has taken them all. *)
Definition pool_result (st : pool_state) (out : result C) : Prop :=
  main st = out ∧
  ((∃ e, out = Raise e) ∨ (it_index (iter st) = length tasks ∧ it_items (iter st) = [])).

(** [out] is what the loop ends with under some order of completion. *)
Definition imap_loop (c : C) (out : result C) : Prop :=
  ∃ st, rtc pool_step (pool_init c) st ∧ pool_result st out.

(** The same loop over the built-in [map]: one worker, one task at a
    time. *)
Definition map_loop (c : C) : result C :=
  rfoldM (λ c obj, v ←! obj; body c v) c (func <$> tasks).

End Pool.

(** ** thu.py: [_extract_trials] *)

(** [np.save] and [np.load] of the two arrays. *)
Class Npy `{Samples} := {
  np_save_data : list trial → bytes;
  np_load_data : bytes → result (list trial);
  np_save_labels : list Z → bytes;
  np_load_labels : bytes → result (list Z);
}.

Section Extract.
Context `{Hashlib} `{TextMode} `{Samples} `{!Npy}.

Definition cache_file (self : THU_RSVP_Dataset) (stem ext : string) : path :=
  path_join (dir self)
    (stem +:+ "." +:+ pretty (trial_duration_ms self) +:+ "ms." +:+ ext).

Definition trial_data_path self := cache_file self "trial_data" "npy".
Definition trial_data_sha256_path self := cache_file self "trial_data" "sha256".
Definition trial_labels_path self := cache_file self "trial_labels" "npy".
Definition trial_labels_sha256_path self := cache_file self "trial_labels" "sha256".

(** The nested function [can_reuse] of [_extract_trials]. *)
Definition can_reuse (self : THU_RSVP_Dataset) (fs : filesystem) : result bool :=
  if negb (path_exists fs (trial_data_sha256_path self))
     || negb (path_exists fs (trial_labels_sha256_path self))
  then Ok false
  else
    data_sum ←! read_text fs (trial_data_sha256_path self);
    data_ok ←! verify_file fs (trial_data_path self) data_sum
                 (verify_sha256 self) DEFAULT_CHUNKSIZE;
    if negb data_ok then Ok false
    else
      labels_sum ←! read_text fs (trial_labels_sha256_path self);
      labels_ok ←! verify_file fs (trial_labels_path self) labels_sum
                     (verify_sha256 self) DEFAULT_CHUNKSIZE;
      if negb labels_ok then Ok false else Ok true.

(** [not self.force_extract and can_reuse()] *)
Definition reuse_cache (self : THU_RSVP_Dataset) (fs : filesystem) : result bool :=
  if negb (force_extract self) then can_reuse self fs else Ok false.

(** The list comprehension [mat_files]; a subject missing from the table
    raises [KeyError]. *)
Definition mat_file (self : THU_RSVP_Dataset) (subj_idx : Z) (session : string)
  : result path :=
  folder ←! of_option KeyError (WHICH_FOLDER_EACH_SUBJECT !! subj_idx);
  Ok (path_join (path_join (dir self) folder)
        ("sub" +:+ pretty subj_idx +:+ session +:+ ".mat")).

Definition mat_files (self : THU_RSVP_Dataset) : result (list path) :=
  per_subject ←!
    rmapM (λ subj_idx, rmapM (mat_file self subj_idx) ["A"; "B"])
      (py_range 1 65);
  Ok (concat per_subject).

(** The table and the list are never unfolded by a tactic; they are
    evaluated where their value is needed. *)
#[global] Opaque WHICH_FOLDER_EACH_SUBJECT mat_files.

(** [worker_fn = partial(load_trials_one_session, ...)] *)
Definition worker_fn (self : THU_RSVP_Dataset) (mats : mat_store)
    (file : path) : result (list trial * list Z) :=
  load_trials_one_session mats file (channels_to_use self)
    (original_sample_rate_hz self) (trial_duration_samples self)
    (transform self).

(** The body of the loop over the sessions, on the state
    [(data, labels, cursor)]. *)
Definition store_session (self : THU_RSVP_Dataset)
    (st : list trial * list Z * Z) (session : list trial * list Z)
  : result (list trial * list Z * Z) :=
  let '(data, labels, cursor) := st in
  let '(subject_trial_data, subject_trial_labels) := session in
  data ←! assign_trials (output_shape self) data cursor
            (cursor + Z.of_nat (length subject_trial_data)) subject_trial_data;
  labels ←! assign_slice labels cursor
              (cursor + Z.of_nat (length subject_trial_labels))
              subject_trial_labels;
  Ok (data, labels, cursor + Z.of_nat (length subject_trial_data)).

(** What the loop starts from: the file list, the two allocations and
    [cursor = 0]. *)
Definition extract_setup (self : THU_RSVP_Dataset)
  : result (list path * (list trial * list Z * Z)) :=
  files ←! mat_files self;
  data ←! np_empty_data (n_trials self) (output_shape self);
  labels ←! np_empty_labels (n_trials self);
  Ok (files, (data, labels, 0)).

(** The extraction proper, from the file list to the end of the loop, on
    the worker pool: [out] is the final [(data, labels, cursor)] or the
    exception raised. *)
Definition extract_parallel (self : THU_RSVP_Dataset) (mats : mat_store)
    (out : result (list trial * list Z * Z)) : Prop :=
  match extract_setup self with
  | inl e => out = Raise e
  | inr (files, st) =>
      imap_loop (worker_fn self mats) (store_session self) files st out
  end.

(** The same with one worker taking the sessions one after the other. *)
Definition extract_sequential (self : THU_RSVP_Dataset) (mats : mat_store)
  : result (list trial * list Z * Z) :=
  '(files, st) ←! extract_setup self;
  map_loop (worker_fn self mats) (store_session self) files st.

(** Saving the arrays and their checksums, in the order of the code. *)
Definition save_arrays (self : THU_RSVP_Dataset) (fs : filesystem)
    (data : list trial) (labels : list Z) : result filesystem :=
  let fs := <[trial_data_path self := np_save_data data]> fs in
  sum ←! file_sha256hash fs (trial_data_path self) DEFAULT_CHUNKSIZE;
  fs ←! write_text fs (trial_data_sha256_path self) sum;
  let fs := <[trial_labels_path self := np_save_labels labels]> fs in
  sum ←! file_sha256hash fs (trial_labels_path self) DEFAULT_CHUNKSIZE;
  write_text fs (trial_labels_sha256_path self) sum.

(** What [_extract_trials] returns on a hit: the two cached arrays, the
    file system untouched. *)
Definition cached_arrays (self : THU_RSVP_Dataset) (fs : filesystem)
  : result (list trial * list Z * filesystem) :=
  data_bytes ←! of_option FileNotFoundError (fs !! trial_data_path self);
  data ←! np_load_data data_bytes;
  labels_bytes ←! of_option FileNotFoundError (fs !! trial_labels_path self);
  labels ←! np_load_labels labels_bytes;
  Ok (data, labels, fs).

(** What it returns on a miss: the arrays some run of the pool built,
    saved with their checksums. *)
Definition rebuilt_arrays (self : THU_RSVP_Dataset) (fs : filesystem)
    (mats : mat_store) (out : result (list trial * list Z * filesystem)) : Prop :=
  ∃ built, extract_parallel self mats built ∧
    out = ('(data, labels, _) ←! built;
           fs ←! save_arrays self fs data labels;
           Ok (data, labels, fs)).

(** [_extract_trials]: the arrays returned and the file system left
    behind, or the exception raised. *)
Definition extract_trials (self : THU_RSVP_Dataset) (fs : filesystem)
    (mats : mat_store) (out : result (list trial * list Z * filesystem)) : Prop :=
  match reuse_cache self fs with
  | inl e => out = Raise e
  | inr true => out = cached_arrays self fs
  | inr false => rebuilt_arrays self fs mats out
  end.

End Extract.

(** * Specification-side definitions *)

Section CacheSpec.
Context `{Hashlib} `{TextMode} `{Samples}.

(** The reuse condition in the words of the specification: the data file,
    the labels file and both checksum files exist, and each checksum file
    holds the digest of its array file unless verification is disabled. *)
Definition cache_entry_valid (self : THU_RSVP_Dataset) (fs : filesystem) : Prop :=
  ∃ data labels data_sum labels_sum,
    fs !! trial_data_path self = Some data ∧
    fs !! trial_labels_path self = Some labels ∧
    fs !! trial_data_sha256_path self = Some data_sum ∧
    fs !! trial_labels_sha256_path self = Some labels_sum ∧
    (verify_sha256 self = true →
       sha256_hexdigest data = String.string_of_list_byte data_sum ∧
       sha256_hexdigest labels = String.string_of_list_byte labels_sum).

(** The same condition on checksum files that are read as text: the four
    files exist, both checksum files decode, and each decoded text is the
    digest of its array file unless verification is disabled. *)
Definition cache_entry_readable (self : THU_RSVP_Dataset) (fs : filesystem)
  : Prop :=
  ∃ data labels data_sum labels_sum data_text labels_text,
    fs !! trial_data_path self = Some data ∧
    fs !! trial_labels_path self = Some labels ∧
    fs !! trial_data_sha256_path self = Some data_sum ∧
    fs !! trial_labels_sha256_path self = Some labels_sum ∧
    text_decode data_sum = Some data_text ∧
    text_decode labels_sum = Some labels_text ∧
    (verify_sha256 self = true →
       sha256_hexdigest data = data_text ∧
       sha256_hexdigest labels = labels_text).

(** A checksum file that the check reads and that is no text: both
    checksum files exist, and either the one of the data does not decode,
    or it does, the data file passes its test, and the one of the labels
    does not decode. *)
Definition checksum_unreadable (self : THU_RSVP_Dataset) (fs : filesystem)
  : Prop :=
  ∃ data_sum labels_sum,
    fs !! trial_data_sha256_path self = Some data_sum ∧
    fs !! trial_labels_sha256_path self = Some labels_sum ∧
    (text_decode data_sum = None ∨
     ∃ data data_text,
       fs !! trial_data_path self = Some data ∧
       text_decode data_sum = Some data_text ∧
       (verify_sha256 self = true → sha256_hexdigest data = data_text) ∧
       text_decode labels_sum = None).

End CacheSpec.

Section WorkerSpec.
Context `{Samples}.

(** The downsample factor of a session, in the words of the specification:
    [original_rate / final_rate], a float whose value [factor] need not be
    an integer. *)
Definition downsample_factor_is (original_rate final_rate : Z) (factor : Q)
  : Prop :=
  ∃ q, true_div original_rate final_rate = Ok q ∧ float_value q = Some factor.

(** The onset at the final rate, in the words of the specification: the
    floor of the raw onset divided by the downsample factor. *)
Definition converted_onset (factor : Q) (trial_onset : Z) : Z :=
  Qfloor (inject_Z trial_onset / factor).

(** What is left of a signal from the sample [c] on, channel by channel:
    a negative [c] counts from the end of the channel, and nothing is left
    from a [c] past the end. *)
Definition signal_from (data : matrix sample) (c : Z) : matrix sample :=
  (λ row,
     drop (Z.to_nat (if c <? 0 then Z.max (c + Z.of_nat (length row)) 0 else c))
       row) <$> data.

(** The window of one trigger. *)
Definition cut_trial (data : matrix sample) (factor : Q)
    (trial_duration_samples : Z) (trial_onset : Z) : trial :=
  let c := converted_onset factor trial_onset in
  slice_last_axis data c (c + trial_duration_samples).

(** What a session file parses to, in the words of the specification:
    block 1 before block 2; within a block one trial per trigger, in
    trigger order, cut at the converted onset; the label of a trial is the
    raw code at the same position, minus one. *)
Definition parsed_session (contents : mat_contents) (channels_to_use : list Z)
    (original_rate : Z) (trial_duration_samples : Z)
    (transform : option transform_fn) (res : list trial * list Z) : Prop :=
  ∃ data1 data2 final_rate onsets1 onsets2 codes1 codes2 factor,
    session_blocks contents channels_to_use original_rate transform
      = Ok (data1, data2, final_rate) ∧
    trigger_positions contents !! 0%nat = Some onsets1 ∧
    trigger_positions contents !! 1%nat = Some onsets2 ∧
    class_labels contents !! 0%nat = Some codes1 ∧
    class_labels contents !! 1%nat = Some codes2 ∧
    downsample_factor_is original_rate final_rate factor ∧
    (onsets1 ++ onsets2 ≠ [] → ¬ (factor == 0)%Q) ∧
    (length onsets1 ≤ length codes1)%nat ∧
    (length onsets2 ≤ length codes2)%nat ∧
    res.1 =
      (cut_trial data1 factor trial_duration_samples <$> onsets1)
      ++ (cut_trial data2 factor trial_duration_samples <$> onsets2) ∧
    res.2 =
      ((λ code, code - 1) <$> take (length onsets1) codes1)
      ++ ((λ code, code - 1) <$> take (length onsets2) codes2).

(** A session file the worker can read, whatever its onsets are: the
    blocks select and transform, both trigger rows and both label rows are
    there, no trigger lacks a label, and the downsample factor is a float
    other than zero. *)
Definition readable_session (contents : mat_contents) (channels_to_use : list Z)
    (original_rate : Z) (transform : option transform_fn)
    (data1 data2 : matrix sample) (factor : Q) (onsets1 onsets2 : list Z)
  : Prop :=
  ∃ final_rate,
  session_blocks contents channels_to_use original_rate transform
    = Ok (data1, data2, final_rate) ∧
  trigger_positions contents !! 0%nat = Some onsets1 ∧
  trigger_positions contents !! 1%nat = Some onsets2 ∧
  (∃ codes1 codes2,
     class_labels contents !! 0%nat = Some codes1 ∧
     class_labels contents !! 1%nat = Some codes2 ∧
     (length onsets1 ≤ length codes1)%nat ∧
     (length onsets2 ≤ length codes2)%nat) ∧
  downsample_factor_is original_rate final_rate factor ∧ ¬ (factor == 0)%Q.

End WorkerSpec.

Section PoolSpec.
Context {T V C : Type}.
Variable func : T → result V.
Variable body : C → V → result C.
Variable tasks : list T.

(** The invariant of the pool: the main process has taken the first [k]
    outcomes; the iterator has released the next ones in order up to its
    position; the tasks still running are those from that position on
    that are not held, and every held outcome is the one of its task. *)
Definition pool_inv (c0 : C) (st : pool_state (V:=V) (C:=C)) : Prop :=
  ∃ k : nat,
    main st = rfoldM (λ c obj, v ←! obj; body c v) c0 (take k (func <$> tasks)) ∧
    it_items (iter st) = take (it_index (iter st) - k) (drop k (func <$> tasks)) ∧
    (k ≤ it_index (iter st) ≤ length tasks)%nat ∧
    (∀ i, i ∈ running st ↔
          (it_index (iter st) ≤ i < length tasks)%nat ∧
          it_unsorted (iter st) !! i = None) ∧
    (∀ i obj, it_unsorted (iter st) !! i = Some obj →
              (it_index (iter st) < i < length tasks)%nat ∧
              (func <$> tasks) !! i = Some obj).

(** The state in which the first [k] tasks have finished and their
    outcomes have been taken, nothing else having happened. *)
Definition pool_after (k : nat) (c : result C) : pool_state (V:=V) (C:=C) :=
  {| running := list_to_set (seq k (length tasks - k));
     iter := {| it_index := k; it_items := []; it_unsorted := ∅ |};
     main := c |}.

End PoolSpec.

Section CoordinatorSpec.
Context `{Samples}.

(** The trials of a list of sessions with their labels, session after
    session, each in the order the parser gave. *)
Definition session_rows (sessions : list (list trial * list Z))
  : list (trial * Z) :=
  concat ((λ s, zip s.1 s.2) <$> sessions).

(** A trial that has exactly [C] channels of [W] samples. *)
Definition has_shape (C W : nat) (t : trial) : Prop :=
  length t = C ∧ Forall (λ row, length row = W) t.

(** The invariant of the loop over the sessions, after the sessions whose
    trials are [trials] and whose labels are [codes]: the cursor counts
    them, and the first rows of the two tensors hold them (a trial
    broadcast to the shape of a row), as far as the tensors reach. *)
Definition tensors_hold (self : THU_RSVP_Dataset) (n : nat)
    (trials : list trial) (codes : list Z) (st : list trial * list Z * Z) : Prop :=
  let '(data, labels, cursor) := st in
  length data = n ∧ length labels = n ∧
  cursor = Z.of_nat (length trials) ∧ length codes = length trials ∧
  rmapM (broadcast_trial (Z.to_nat (output_shape self).1)
           (Z.to_nat (output_shape self).2)) (take n trials)
    = Ok (take (length trials) data) ∧
  take n codes = take (length codes) labels.

(** The trigger matrix of a session has [rows] rows of [cols] entries. *)
Definition trigger_shape (contents : mat_contents) (rows cols : Z) : Prop :=
  Z.of_nat (length (trigger_positions contents)) = rows ∧
  Forall (λ row, Z.of_nat (length row) = cols) (trigger_positions contents).

(** A session file of the dataset as published: it can be read, each
    block has 4000 triggers, and every trial window has the shape of a
    row of the output tensor. *)
Definition well_formed_session (self : THU_RSVP_Dataset)
    (contents : mat_contents) : Prop :=
  ∃ data1 data2 factor onsets1 onsets2,
    readable_session contents (channels_to_use self)
      (original_sample_rate_hz self) (transform self)
      data1 data2 factor onsets1 onsets2 ∧
    Z.of_nat (length onsets1) = 4000 ∧ Z.of_nat (length onsets2) = 4000 ∧
    Forall (has_shape (Z.to_nat (output_shape self).1)
              (Z.to_nat (output_shape self).2))
      ((cut_trial data1 factor (trial_duration_samples self) <$> onsets1)
       ++ (cut_trial data2 factor (trial_duration_samples self) <$> onsets2)).

End CoordinatorSpec.

(** The order of the sessions in the words of the specification: subjects
    1 to 64 ascending, and for each subject session A before session B. *)
Definition session_order : list (Z * string) :=
  subj ← seqZ 1 64; [(subj, "A"); (subj, "B")].

(** * Concrete instances, to run the definitions on *)

(** A hash that keeps everything it is fed and prints it back. *)
Definition echo_hashlib : Hashlib :=
  {| hasher := bytes;
     hash_new := [];
     hash_update := app;
     hash_hexdigest := String.string_of_list_byte;
     hash_update_nil := app_nil_r (A:=Byte.byte);
     hash_update_app := λ h a b, eq_sym (app_assoc h a b) |}.

(** Integer samples, cast by the identity. *)
Definition int_samples : Samples :=
  {| raw := Z; sample := Z; astype_float32 := id;
     one := 1; uninit := 0; uninit_label := 0 |}.

(** A serialisation that writes nothing and refuses to read. *)
Definition null_npy : @Npy int_samples :=
  {| np_save_data := λ _, [];
     np_load_data := λ _, Raise ValueError;
     np_save_labels := λ _, [];
     np_load_labels := λ _, Raise ValueError |}.

(** The text mode of a UTF-8 locale.  A text is held as the bytes of its
    UTF-8 form, so that a text of ASCII characters is the string of these
    characters.  Bytes that are not well-formed UTF-8 are refused; in the
    text read, a carriage return, with the line feed that follows it if
    there is one, is a line feed. *)
Definition byte_in (lo hi : N) (b : Byte.byte) : bool :=
  ((lo <=? Byte.to_N b) && (Byte.to_N b <=? hi))%N.

(** The second byte of a sequence of three or four bytes: its range
    depends on the first, which excludes overlong forms, surrogates and
    code points above U+10FFFF. *)
Definition second_byte_ok (b0 b1 : Byte.byte) : bool :=
  let lead := Byte.to_N b0 in
  if (lead =? 0xe0)%N then byte_in 0xa0 0xbf b1
  else if (lead =? 0xed)%N then byte_in 0x80 0x9f b1
  else if (lead =? 0xf0)%N then byte_in 0x90 0xbf b1
  else if (lead =? 0xf4)%N then byte_in 0x80 0x8f b1
  else byte_in 0x80 0xbf b1.

Fixpoint utf8_wellformed (bs : bytes) : bool :=
  match bs with
  | [] => true
  | b0 :: rest =>
      if byte_in 0x00 0x7f b0 then utf8_wellformed rest
      else
        match rest with
        | [] => false
        | b1 :: rest =>
            if byte_in 0xc2 0xdf b0 then
              byte_in 0x80 0xbf b1 && utf8_wellformed rest
            else
              match rest with
              | [] => false
              | b2 :: rest =>
                  if byte_in 0xe0 0xef b0 then
                    second_byte_ok b0 b1 && byte_in 0x80 0xbf b2
                    && utf8_wellformed rest
                  else
                    match rest with
                    | [] => false
                    | b3 :: rest =>
                        byte_in 0xf0 0xf4 b0 && second_byte_ok b0 b1
                        && byte_in 0x80 0xbf b2 && byte_in 0x80 0xbf b3
                        && utf8_wellformed rest
                    end
              end
        end
  end.

Fixpoint universal_newlines (bs : bytes) : bytes :=
  match bs with
  | [] => []
  | b :: rest =>
      if Byte.eqb b Byte.x0d then
        Byte.x0a ::
          match rest with
          | b' :: rest' =>
              if Byte.eqb b' Byte.x0a then universal_newlines rest'
              else universal_newlines rest
          | [] => []
          end
      else b :: universal_newlines rest
  end.

Definition utf8_text : TextMode :=
  {| text_decode := λ content,
       if utf8_wellformed content
       then Some (String.string_of_list_byte (universal_newlines content))
       else None;
     text_encode := λ data,
       let content := String.list_byte_of_string data in
       if utf8_wellformed content then Some content else None |}.

(** A block of [rows] channels and [cols] samples: channel [i] holds
    [1000 * i], [1000 * i + 1], ... *)
Definition ramp_block (rows cols : nat) : matrix Z :=
  (λ i, (λ j, 1000 * Z.of_nat i + Z.of_nat j) <$> seq 0 cols) <$> seq 0 rows.

(** A session of 64 channels and 20 samples per block, two triggers in
    block 1 and one in block 2; the last trigger of block 1 leaves only 4
    samples before the end of the block. *)
Definition small_session : @mat_contents int_samples :=
  @Build_mat_contents int_samples
    (ramp_block 64 20) (ramp_block 64 20) [[3; 16]; [10]] [[1; 2]; [2]].

Definition small_store : gmap string (@mat_contents int_samples) :=
  {[ "s.mat" := small_session ]}.

(** A silent block: [rows] channels of [cols] samples, all zero. *)
Definition flat_block (rows cols : nat) : matrix Z :=
  replicate rows (replicate cols 0).

(** A session with the layout of the real files: 64 channels, 2 x 4000
    triggers, targets in block 1 and non-targets in block 2; every trial
    window of 125 samples fits in its block. *)
Definition full_session : @mat_contents int_samples :=
  @Build_mat_contents int_samples
    (flat_block 64 125) (flat_block 64 125)
    [replicate 4000 0; replicate 4000 0]
    [replicate 4000 1; replicate 4000 2].

(** Every second sample at half the rate, as [filter.Downsample(2)] gives
    at a non-zero rate. *)
Fixpoint every_second {A} (l : list A) : list A :=
  match l with
  | x :: _ :: l' => x :: every_second l'
  | l' => l'
  end.

Definition downsample2 : @transform_fn int_samples :=
  λ data fs, Ok (every_second <$> data, fs `div` 2).

(** The dataset object of the first scenario: 500 ms trials, no
    transform. *)
Definition plain_dataset : @THU_RSVP_Dataset int_samples :=
  {| dir := "datasets/thu";
     trial_duration_ms := 500;
     transform := None;
     download := false;
     verbose := false;
     verify_sha256 := true;
     n_trials := 1024000;
     original_sample_rate_hz := 250;
     channels_to_use := default_channels;
     n_channels := 62;
     force_extract := false;
     final_sample_rate_hz := 250;
     output_shape := (62, 125);
     trial_duration_samples := 125 |}.

(** The 128 session files of the dataset, each holding [full_session]. *)
Definition plain_files : list path :=
  match mat_files plain_dataset with
  | inr files => files
  | inl _ => []
  end.

Definition full_store : gmap string (@mat_contents int_samples) :=
  gset_to_gmap full_session (list_to_set plain_files).

(** A session of a single trial, 125 samples per block. *)
Definition one_trial_session : @mat_contents int_samples :=
  @Build_mat_contents int_samples
    (flat_block 64 125) (flat_block 64 125) [[0]; []] [[1]; []].

Definition one_trial_store : gmap string (@mat_contents int_samples) :=
  {[ "sub1A.mat" := one_trial_session ]}.

(** The dataset object of the example script, but without a transform:
    checksum verification is off. *)
Definition unverified_dataset : @THU_RSVP_Dataset int_samples :=
  {| dir := "datasets/thu";
     trial_duration_ms := 500;
     transform := None;
     download := true;
     verbose := true;
     verify_sha256 := false;
     n_trials := 1024000;
     original_sample_rate_hz := 250;
     channels_to_use := default_channels;
     n_channels := 62;
     force_extract := false;
     final_sample_rate_hz := 250;
     output_shape := (62, 125);
     trial_duration_samples := 125 |}.

(** The dataset object for trials of no duration: [int(0 / 1000 * 250)]
    is 0. *)
Definition instant_dataset : @THU_RSVP_Dataset int_samples :=
  {| dir := "datasets/thu";
     trial_duration_ms := 0;
     transform := None;
     download := false;
     verbose := false;
     verify_sha256 := true;
     n_trials := 1024000;
     original_sample_rate_hz := 250;
     channels_to_use := default_channels;
     n_channels := 62;
     force_extract := false;
     final_sample_rate_hz := 250;
     output_shape := (62, 0);
     trial_duration_samples := 0 |}.

(** A session of 64 channels and 20 samples per block whose only trigger
    lies past the end of its block, at sample 30. *)
Definition late_session : @mat_contents int_samples :=
  @Build_mat_contents int_samples
    (ramp_block 64 20) (ramp_block 64 20) [[30]; []] [[1]; []].

Definition late_store : gmap string (@mat_contents int_samples) :=
  {[ "s.mat" := late_session ]}.

(** The cache directory of [unverified_dataset] with the given contents of
    the data file, the labels file and their two checksum files. *)
Definition cache_of (data labels data_sum labels_sum : bytes) : filesystem :=
  <[@trial_data_path int_samples unverified_dataset := data]>
    (<[@trial_labels_path int_samples unverified_dataset := labels]>
       (<[@trial_data_sha256_path int_samples unverified_dataset := data_sum]>
          {[@trial_labels_sha256_path int_samples unverified_dataset
              := labels_sum]})).

(** All four files, with checksum files that are no text: each holds the
    single byte 0xff. *)
Definition garbled_cache : filesystem :=
  cache_of [] [] [Byte.xff] [Byte.xff].

(** The same without the data file. *)
Definition garbled_cache_no_data : filesystem :=
  delete (@trial_data_path int_samples unverified_dataset) garbled_cache.

(** A cache whose data file is gone: the labels file and both checksum
    files, which hold text, are left. *)
Definition cache_no_data : filesystem :=
  delete (@trial_data_path int_samples unverified_dataset)
    (cache_of [] [] (String.list_byte_of_string "00")
       (String.list_byte_of_string "00")).

(** The first block of [small_session] as the worker slices it without a
    transform: 62 channels of 20 samples. *)
Definition small_block : matrix Z :=
  Eval vm_compute in
    match @session_blocks int_samples small_session default_channels 250 None with
    | inr (data1, _, _) => data1
    | inl _ => []
    end.

(** The value of the downsample factor without a transform: the float
    [250 / 250]. *)
Definition unit_factor : Q :=
  Eval vm_compute in
    match true_div 250 250 with
    | inr q => default 0%Q (float_value q)
    | inl _ => 0%Q
    end.

(** * The integrity verifier *)

Lemma read_upto_app n rest :
  (read_upto n rest).1 ++ (read_upto n rest).2 = rest.
Proof.
  revert n. induction rest as [|b rest IH]; intros n; simpl; [done|].
  destruct (0 <? n); [|done].
  specialize (IH (n - 1)). destruct (read_upto (n - 1) rest) as [c u].
  simpl in *. by rewrite IH.
Qed.

Lemma read_upto_nil n rest :
  0 < n → (read_upto n rest).1 = [] → rest = [].
Proof.
  intros Hn. destruct rest as [|b rest]; simpl; [done|].
  destruct (Z.ltb_spec 0 n); [|lia].
  by destruct (read_upto (n - 1) rest).
Qed.

Lemma f_read_app n rest : (f_read n rest).1 ++ (f_read n rest).2 = rest.
Proof.
  unfold f_read. destruct (n <? 0); simpl.
  - by rewrite app_nil_r.
  - apply read_upto_app.
Qed.

Lemma f_read_nil n rest : n ≠ 0 → (f_read n rest).1 = [] → rest = [].
Proof.
  unfold f_read. intros Hn. destruct (Z.ltb_spec n 0); simpl; [done|].
  apply read_upto_nil. lia.
Qed.

Section VerifierFacts.
Context `{Hashlib}.

(** Reading in chunks of any non-zero size feeds the hash the whole
    content. *)
Lemma read_chunks_whole fuel chunksize h rest :
  chunksize ≠ 0 → (length rest < fuel)%nat →
  read_chunks fuel chunksize h rest = hash_update h rest.
Proof.
  intros Hc. revert h rest.
  induction fuel as [|fuel IH]; intros h rest Hlen; [lia|].
  simpl.
  pose proof (f_read_app chunksize rest) as Happ.
  pose proof (f_read_nil chunksize rest Hc) as Hnil.
  destruct (f_read chunksize rest) as [chunk unread]. simpl in *.
  destruct chunk as [|b chunk].
  - rewrite Hnil by done. by rewrite hash_update_nil.
  - rewrite IH.
    + by rewrite hash_update_app, Happ.
    + rewrite <- Happ in Hlen. simpl in Hlen. rewrite length_app in Hlen. lia.
Qed.

Lemma file_sha256hash_whole fs file chunksize content :
  chunksize ≠ 0 → fs !! file = Some content →
  file_sha256hash fs file chunksize = Ok (sha256_hexdigest content).
Proof.
  intros Hc Hfile. unfold file_sha256hash, sha256_hexdigest.
  rewrite Hfile. unfold of_option, rbind.
  by rewrite read_chunks_whole by (done || lia).
Qed.

Lemma path_exists_Some fs file content :
  fs !! file = Some content → path_exists fs file = true.
Proof. intros Hf. unfold path_exists. rewrite Hf. by apply bool_decide_eq_true. Qed.

Lemma path_exists_None fs file :
  fs !! file = None → path_exists fs file = false.
Proof.
  intros Hf. unfold path_exists. rewrite Hf.
  apply bool_decide_eq_false. by intros [? ?].
Qed.

(** What [verify_file] answers, for every chunk size that reads at all. *)
Lemma verify_file_chunked fs file sha256sum enabled chunksize :
  chunksize ≠ 0 →
  verify_file fs file sha256sum enabled chunksize =
    Ok (match fs !! file with
        | None => false
        | Some content =>
            if enabled then bool_decide (sha256_hexdigest content = sha256sum)
            else true
        end).
Proof.
  intros Hc. unfold verify_file.
  destruct (fs !! file) as [content|] eqn:Hfile.
  - rewrite (path_exists_Some _ _ _ Hfile). simpl.
    destruct enabled; simpl; [|done].
    by rewrite (file_sha256hash_whole _ _ _ _ Hc Hfile).
  - by rewrite (path_exists_None _ _ Hfile).
Qed.

(** C6.  For every path, expected checksum and flag, [verify_file] (with
    its default chunk size) returns without raising; it answers [False]
    when the path does not exist; otherwise [True] when verification is
    disabled; otherwise it answers whether the hex digest of the file's
    content equals the expected checksum. *)
Theorem verify_file_contract fs (file : path) (sha256sum : string) (enabled : bool) :
  verify_file fs file sha256sum enabled DEFAULT_CHUNKSIZE =
    Ok (match fs !! file with
        | None => false
        | Some content =>
            if enabled then bool_decide (sha256_hexdigest content = sha256sum)
            else true
        end).
Proof. by apply verify_file_chunked. Qed.

End VerifierFacts.

(** * The cache manager *)

Section CacheFacts.
Context `{Hashlib} `{TextMode} `{Samples} `{!Npy}.

Lemma read_text_Some fs p content :
  fs !! p = Some content →
  read_text fs p = of_option UnicodeDecodeError (text_decode content).
Proof. intros Hp. unfold read_text. by rewrite Hp. Qed.

(** A cache entry that can be reused has no checksum file that fails to
    decode. *)
Lemma readable_not_unreadable self fs :
  cache_entry_readable self fs → ¬ checksum_unreadable self fs.
Proof.
  intros (d & l & ds & ls & dt & lt & Hd & Hl & Hds & Hls & Hdt & Hlt & _)
         (ds' & ls' & Hds' & Hls' & Hbad).
  simplify_eq. destruct Hbad as [Hbad|(? & ? & _ & _ & _ & Hbad)]; congruence.
Qed.

(** The three ways in which [can_reuse] ends: it answers [True] on a
    readable cache entry, it raises on a checksum file that is no text,
    and it answers [False] in every other case. *)
Lemma can_reuse_cases self fs :
  (can_reuse self fs = Ok true ∧ cache_entry_readable self fs) ∨
  (can_reuse self fs = Raise UnicodeDecodeError ∧ checksum_unreadable self fs) ∨
  (can_reuse self fs = Ok false ∧
   ¬ cache_entry_readable self fs ∧ ¬ checksum_unreadable self fs).
Proof.
  unfold can_reuse.
  destruct (fs !! trial_data_sha256_path self) as [dsum|] eqn:Hds; cycle 1.
  { rewrite (path_exists_None _ _ Hds). simpl. right. right.
    split; [done|]. split.
    - intros (?&?&?&?&?&?&?&?&?&?); congruence.
    - intros (?&?&?&?); congruence. }
  destruct (fs !! trial_labels_sha256_path self) as [lsum|] eqn:Hls; cycle 1.
  { rewrite (path_exists_None _ _ Hls), orb_true_r. right. right.
    split; [done|]. split.
    - intros (?&?&?&?&?&?&?&?&?&?&?); congruence.
    - intros (?&?&?&?&?); congruence. }
  rewrite (path_exists_Some _ _ _ Hds), (path_exists_Some _ _ _ Hls). simpl.
  rewrite (read_text_Some _ _ _ Hds), (read_text_Some _ _ _ Hls).
  destruct (text_decode dsum) as [dtext|] eqn:Hdt; simpl; cycle 1.
  { right. left. split; [done|]. exists dsum, lsum. by eauto. }
  rewrite !verify_file_chunked by done.
  destruct (fs !! trial_data_path self) as [data|] eqn:Hd; simpl; cycle 1.
  { right. right. split; [done|]. split.
    - intros (?&?&?&?&?&?&?&?); congruence.
    - intros (?&?&?&?&[?|(?&?&?&?)]); congruence. }
  destruct (if verify_sha256 self
            then bool_decide (sha256_hexdigest data = dtext) else true)
    eqn:Hdata; simpl; cycle 1.
  { destruct (verify_sha256 self) eqn:Hv; [|done].
    apply bool_decide_eq_false in Hdata as Hsum.
    right. right. split; [done|]. split.
    - intros (?&?&?&?&?&?&?&?&?&?&?&?&Hv'). simplify_eq.
      by destruct (Hv' Hv).
    - intros (?&?&?&?&[?|(?&?&?&?&Hv'&?)]); simplify_eq. by apply Hsum, Hv'. }
  assert (verify_sha256 self = true → sha256_hexdigest data = dtext) as Hdsum.
  { intros Hv. rewrite Hv in Hdata.
    by apply bool_decide_eq_true in Hdata. }
  destruct (text_decode lsum) as [ltext|] eqn:Hlt; simpl; cycle 1.
  { right. left. split; [done|]. exists dsum, lsum.
    split; [done|]. split; [done|]. right. by exists data, dtext. }
  rewrite verify_file_chunked by done.
  destruct (fs !! trial_labels_path self) as [labels|] eqn:Hl; simpl; cycle 1.
  { right. right. split; [done|]. split.
    - intros (?&?&?&?&?&?&?&?&?); congruence.
    - intros (?&?&?&?&[?|(?&?&?&?&?&?)]); congruence. }
  destruct (if verify_sha256 self
            then bool_decide (sha256_hexdigest labels = ltext) else true)
    eqn:Hlabels; simpl; cycle 1.
  { destruct (verify_sha256 self) eqn:Hv; [|done].
    apply bool_decide_eq_false in Hlabels as Hsum.
    right. right. split; [done|]. split.
    - intros (?&?&?&?&?&?&?&?&?&?&?&?&Hv'). simplify_eq.
      by destruct (Hv' Hv).
    - intros (?&?&?&?&[?|(?&?&?&?&?&?)]); congruence. }
  left. split; [done|]. exists data, labels, dsum, lsum, dtext, ltext.
  split_and!; try done. intros Hv. split; [by apply Hdsum|].
  rewrite Hv in Hlabels. by apply bool_decide_eq_true in Hlabels.
Qed.

(** The same for the test that gates reuse, [not self.force_extract and
    can_reuse()]: with the flag set, [can_reuse] is not called. *)
Lemma reuse_cache_cases self fs :
  (reuse_cache self fs = Ok true ∧
   force_extract self = false ∧ cache_entry_readable self fs) ∨
  (reuse_cache self fs = Raise UnicodeDecodeError ∧
   force_extract self = false ∧ checksum_unreadable self fs) ∨
  (reuse_cache self fs = Ok false ∧
   (force_extract self = true ∨
    ¬ cache_entry_readable self fs ∧ ¬ checksum_unreadable self fs)).
Proof.
  unfold reuse_cache. destruct (force_extract self); simpl.
  { right. right. split; [done|]. by left. }
  destruct (can_reuse_cases self fs) as [[-> ?]|[[-> ?]|[-> ?]]]; eauto 6.
Qed.

(** C5, as amended.  [_extract_trials] returns the cached pair if and only
    if the force-extract flag is off, all four files exist, both checksum
    files decode as text, and both checksums verify against the decoded
    texts unless verification is disabled.  With the force-extract flag
    set the arrays are rebuilt whatever the cache holds.  With the flag
    off, a checksum file that is read and is no text makes the check raise
    [UnicodeDecodeError], and nothing is reused or rebuilt; in every other
    case the arrays are rebuilt. *)
Theorem cache_reuse_iff self fs :
  (reuse_cache self fs = Ok true ↔
     force_extract self = false ∧ cache_entry_readable self fs) ∧
  (force_extract self = true → reuse_cache self fs = Ok false) ∧
  (∀ e, reuse_cache self fs = Raise e ↔
     e = UnicodeDecodeError ∧
     force_extract self = false ∧ checksum_unreadable self fs) ∧
  (reuse_cache self fs = Ok false ↔
     force_extract self = true ∨
     ¬ cache_entry_readable self fs ∧ ¬ checksum_unreadable self fs) ∧
  (∀ mats out,
     (force_extract self = false ∧ cache_entry_readable self fs →
        extract_trials self fs mats out ↔ out = cached_arrays self fs) ∧
     (force_extract self = false ∧ checksum_unreadable self fs →
        extract_trials self fs mats out ↔ out = Raise UnicodeDecodeError) ∧
     (force_extract self = true ∨
      ¬ cache_entry_readable self fs ∧ ¬ checksum_unreadable self fs →
        extract_trials self fs mats out ↔ rebuilt_arrays self fs mats out)).
Proof.
  assert (force_extract self = true → reuse_cache self fs = Ok false) as Hforce.
  { intros Hf. unfold reuse_cache. by rewrite Hf. }
  pose proof (readable_not_unreadable self fs) as Hexcl.
  destruct (reuse_cache_cases self fs)
    as [(Hb & Hf & Hr)|[(Hb & Hf & Hu)|(Hb & Hno)]];
    (split; [|split; [done|split; [|split]]]).
  - by rewrite Hb.
  - intros e. rewrite Hb. split; [done|]. intros (_ & _ & Hu). by destruct (Hexcl Hr).
  - rewrite Hb. split; [done|]. intros [Hf'|[Hnr _]]; [congruence|by destruct Hnr].
  - intros mats out. unfold extract_trials. rewrite Hb. split; [done|]. split.
    + intros [_ Hu]. by destruct (Hexcl Hr).
    + intros [Hf'|[Hnr _]]; [congruence|by destruct Hnr].
  - rewrite Hb. split; [done|]. intros [_ Hr]. by destruct (Hexcl Hr).
  - intros e. rewrite Hb. split; [by intros [= <-]|by intros (-> & _)].
  - rewrite Hb. split; [done|]. intros [Hf'|[_ Hnu]]; [congruence|by destruct Hnu].
  - intros mats out. unfold extract_trials. rewrite Hb. split; [|split; [done|]].
    + intros [_ Hr]. by destruct (Hexcl Hr).
    + intros [Hf'|[_ Hnu]]; [congruence|by destruct Hnu].
  - rewrite Hb. split; [done|]. intros [Hf Hr].
    destruct Hno as [Hf'|[Hnr _]]; [congruence|by destruct Hnr].
  - intros e. rewrite Hb. split; [done|]. intros (_ & Hf & Hu).
    destruct Hno as [Hf'|[_ Hnu]]; [congruence|by destruct Hnu].
  - by rewrite Hb.
  - intros mats out. unfold extract_trials. rewrite Hb. split; [|split; [|done]].
    + intros [Hf Hr]. destruct Hno as [Hf'|[Hnr _]]; [congruence|by destruct Hnr].
    + intros [Hf Hu]. destruct Hno as [Hf'|[_ Hnu]]; [congruence|by destruct Hnu].
Qed.

(** C10, as amended.  With checksum verification disabled, [verify_file]
    still answers [False] for a missing file, since it tests existence
    before it looks at the flag.  So the reuse check succeeds exactly when
    all four cache files exist and both checksum files decode as text;
    when the data file or the labels file is missing, the cached pair is
    never reused, and [_extract_trials] rebuilds unless a checksum file
    that the check reads is no text, in which case it raises
    [UnicodeDecodeError]. *)
Theorem missing_array_blocks_reuse self fs :
  verify_sha256 self = false →
  (∀ file sha256sum, fs !! file = None →
     verify_file fs file sha256sum (verify_sha256 self) DEFAULT_CHUNKSIZE
       = Ok false) ∧
  (can_reuse self fs = Ok true ↔
     is_Some (fs !! trial_data_path self) ∧
     is_Some (fs !! trial_labels_path self) ∧
     (∃ data_sum, fs !! trial_data_sha256_path self = Some data_sum ∧
                  is_Some (text_decode data_sum)) ∧
     (∃ labels_sum, fs !! trial_labels_sha256_path self = Some labels_sum ∧
                    is_Some (text_decode labels_sum))) ∧
  (fs !! trial_data_path self = None ∨ fs !! trial_labels_path self = None →
     can_reuse self fs ≠ Ok true ∧
     reuse_cache self fs ≠ Ok true ∧
     (checksum_unreadable self fs →
        can_reuse self fs = Raise UnicodeDecodeError) ∧
     (¬ checksum_unreadable self fs →
        can_reuse self fs = Ok false ∧
        reuse_cache self fs = Ok false ∧
        ∀ mats out,
          extract_trials self fs mats out ↔ rebuilt_arrays self fs mats out)).
Proof.
  intros Hv.
  assert (can_reuse self fs = Ok true ↔ cache_entry_readable self fs) as Htrue.
  { pose proof (readable_not_unreadable self fs) as Hexcl.
    destruct (can_reuse_cases self fs) as [[-> ?]|[[-> ?]|[-> [? ?]]]];
      split; try done.
    intros Hr. by destruct (Hexcl Hr). }
  split; [|split].
  - intros file sha256sum Hfile. rewrite verify_file_chunked, Hfile; done.
  - rewrite Htrue. split.
    + intros (d & l & ds & ls & dt & lt & Hd & Hl & Hds & Hls & Hdt & Hlt & _).
      rewrite Hd, Hl. split; [eauto|]. split; [eauto|].
      split; [exists ds|exists ls]; split; try done; eauto.
    + intros ([d Hd] & [l Hl] & (ds & Hds & [dt Hdt]) & (ls & Hls & [lt Hlt])).
      exists d, l, ds, ls, dt, lt. split_and!; try done.
      rewrite Hv. done.
  - intros Hmissing.
    assert (¬ cache_entry_readable self fs) as Hnr.
    { intros (d & l & ds & ls & dt & lt & Hd & Hl & _).
      destruct Hmissing; congruence. }
    assert (can_reuse self fs ≠ Ok true) as Hcan by (by rewrite Htrue).
    split; [done|]. split.
    { unfold reuse_cache. by destruct (force_extract self). }
    destruct (can_reuse_cases self fs) as [[_ ?]|[[Hb Hu]|[Hb [_ Hnu]]]]; [done| |].
    + split; [done|]. intros Hnu. by destruct Hnu.
    + split; [intros Hu; by destruct Hnu|]. intros _.
      assert (reuse_cache self fs = Ok false) as Hreuse.
      { unfold reuse_cache. rewrite Hb. by destruct (force_extract self). }
      split; [done|]. split; [done|].
      intros mats out. unfold extract_trials. by rewrite Hreuse.
Qed.

End CacheFacts.

(** * Python primitives *)

Lemma rbind_Ok {A B} (m : result A) (k : A → result B) b :
  rbind m k = Ok b ↔ ∃ a, m = Ok a ∧ k a = Ok b.
Proof.
  destruct m as [e|a]; simpl.
  - split; [done|]. by intros (? & ? & ?).
  - split; [by exists a|]. by intros (? & [= ->] & ?).
Qed.

(** Inverts a successful run of monadic code, one bind at a time. *)
Ltac inv_bind H :=
  repeat match type of H with
  | rbind _ _ = Ok _ =>
      let a := fresh "a" in
      let Ha := fresh "Hbind" in
      apply rbind_Ok in H as (a & Ha & H)
  | rbind _ _ = inr _ =>
      let a := fresh "a" in
      let Ha := fresh "Hbind" in
      apply rbind_Ok in H as (a & Ha & H)
  end.

Lemma exists_Some_eq {A} (a : A) (P : A → Prop) :
  (∃ c, Some a = Some c ∧ P c) ↔ P a.
Proof. split; [by intros (? & [= <-] & ?)|by exists a]. Qed.

Lemma of_option_Ok {A} e (o : option A) a : of_option e o = Ok a ↔ o = Some a.
Proof. destruct o; simpl; split; by intros [= ->] || done. Qed.

Lemma py_index_nonneg {A} (l : list A) i :
  0 ≤ i → py_index l i = of_option IndexError (l !! Z.to_nat i).
Proof.
  intros Hi. unfold py_index.
  destruct (Z.ltb_spec i (- Z.of_nat (length l))); [lia|].
  destruct (Z.leb_spec (Z.of_nat (length l)) i); simpl.
  - by rewrite lookup_ge_None_2 by lia.
  - by destruct (Z.ltb_spec i 0); [lia|].
Qed.

Lemma rmapM_length {A B} (f : A → result B) l l' :
  rmapM f l = Ok l' → length l' = length l.
Proof.
  revert l'. induction l as [|a l IH]; intros l' Hl; simpl in Hl.
  - by injection Hl as <-.
  - inv_bind Hl. injection Hl as <-. simpl. f_equal. by apply IH.
Qed.

Lemma rmapM_lookup {A B} (f : A → result B) l l' i a :
  rmapM f l = Ok l' → l !! i = Some a →
  ∃ b, f a = Ok b ∧ l' !! i = Some b.
Proof.
  revert l' i. induction l as [|a0 l IH]; intros l' i Hl Hi; [done|].
  simpl in Hl. inv_bind Hl. injection Hl as <-.
  destruct i as [|i]; simpl in *.
  - injection Hi as ->. eauto.
  - eauto.
Qed.

Lemma rmapM_Ok {A B} (f : A → result B) (g : A → B) l :
  (∀ a, a ∈ l → f a = Ok (g a)) → rmapM f l = Ok (g <$> l).
Proof.
  induction l as [|a l IH]; intros Hf; simpl; [done|].
  rewrite Hf by left. simpl. rewrite IH; [done|].
  intros a' Ha'. apply Hf. by right.
Qed.

Lemma rmapM_ext {A B} (f g : A → result B) l :
  (∀ a, a ∈ l → f a = g a) → rmapM f l = rmapM g l.
Proof.
  induction l as [|a l IH]; intros Hf; simpl; [done|].
  rewrite Hf by left. rewrite IH; [done|].
  intros a' Ha'. apply Hf. by right.
Qed.

Lemma slice_bound_range n i : 0 ≤ n → 0 ≤ slice_bound n i ≤ n.
Proof. unfold slice_bound. destruct (Z.ltb_spec i 0); lia. Qed.

Lemma py_slice_length {A} (l : list A) a b :
  Z.of_nat (length (py_slice l a b)) =
    Z.max 0 (slice_bound (Z.of_nat (length l)) b - slice_bound (Z.of_nat (length l)) a).
Proof.
  unfold py_slice. cbv zeta. rewrite length_take, length_drop.
  pose proof (slice_bound_range (Z.of_nat (length l)) a).
  pose proof (slice_bound_range (Z.of_nat (length l)) b).
  lia.
Qed.

(** A window that lies inside the sequence has its full length. *)
Lemma py_slice_inside {A} (l : list A) a n :
  0 ≤ a → 0 ≤ n → a + n ≤ Z.of_nat (length l) →
  Z.of_nat (length (py_slice l a (a + n))) = n.
Proof.
  intros Ha Hn Hlen. rewrite py_slice_length. unfold slice_bound.
  destruct (Z.ltb_spec a 0), (Z.ltb_spec (a + n) 0); lia.
Qed.

(** A window that runs past the end is cut short, whatever its start. *)
Lemma py_slice_past_end {A} (l : list A) a n :
  0 < n → Z.of_nat (length l) < a + n →
  Z.of_nat (length (py_slice l a (a + n))) < n.
Proof.
  intros Hn Hlen. rewrite py_slice_length. unfold slice_bound.
  destruct (Z.ltb_spec a 0), (Z.ltb_spec (a + n) 0); lia.
Qed.

(** A window that runs past the end holds what is left of the sequence
    from its start on. *)
Lemma py_slice_past_end_drop {A} (l : list A) a n :
  Z.of_nat (length l) < a + n →
  py_slice l a (a + n) =
    drop (Z.to_nat (if a <? 0 then Z.max (a + Z.of_nat (length l)) 0 else a)) l.
Proof.
  intros Hlen. unfold py_slice, slice_bound. cbv zeta.
  destruct (Z.ltb_spec (a + n) 0); [lia|].
  rewrite (Z.min_r (a + n)) by lia.
  destruct (Z.ltb_spec a 0).
  - apply take_ge. rewrite length_drop. lia.
  - destruct (Z.le_gt_cases a (Z.of_nat (length l))).
    + rewrite Z.min_l by done. apply take_ge. rewrite length_drop. lia.
    + rewrite Z.min_r by lia. rewrite take_ge by (rewrite length_drop; lia).
      by rewrite !drop_ge by lia.
Qed.

(** * The session parser *)

(** A division of two integers that returns gives a zero or a finite
    float: a float that has a value. *)
Lemma true_div_Ok a b q :
  true_div a b = Ok q → b ≠ 0 ∧ ∃ f, float_value q = Some f.
Proof.
  unfold true_div. destruct (Z.eqb_spec b 0) as [->|Hb]; [done|].
  destruct (SFdiv prec emax (int_operand a) (int_operand b)) eqn:Hdiv;
    intros [= <-]; simpl; eauto.
Qed.

Lemma finite_value_nonzero s m e : ¬ (finite_value s m e == 0)%Q.
Proof.
  unfold finite_value, Qeq. destruct e as [|p|p], s; simpl; lia.
Qed.

(** A float whose value is not zero divides every onset, and the quotient
    is the floor of the quotient of the values. *)
Lemma floor_div_Ok a q f :
  float_value q = Some f → ¬ (f == 0)%Q →
  floor_div a q = Ok (Qfloor (inject_Z a / f)).
Proof.
  destruct q as [z|z| |s m e]; intros [= <-] Hnz; [|done]. by destruct Hnz.
Qed.

(** A float whose value is zero divides no onset. *)
Lemma floor_div_zero a q f :
  float_value q = Some f → (f == 0)%Q → ∃ e, floor_div a q = Raise e.
Proof.
  destruct q as [z|z| |s m e]; intros [= <-] Hz; [by eexists|].
  by apply finite_value_nonzero in Hz.
Qed.

Section WorkerFacts.
Context `{Samples}.

(** One block: the loop succeeds exactly when no onset is divided by a
    zero factor and every trigger has a label, and then it appends one
    window and one label per trigger, in trigger order. *)
Lemma block_loop_Ok data labels q f dur i onsets acc res :
  float_value q = Some f → 0 ≤ i →
  block_loop data labels q dur i onsets acc = Ok res ↔
    (onsets ≠ [] →
       ¬ (f == 0)%Q ∧ i + Z.of_nat (length onsets) ≤ Z.of_nat (length labels)) ∧
    res = (acc.1 ++ (cut_trial data f dur <$> onsets),
           acc.2 ++ take (length onsets) (drop (Z.to_nat i) labels)).
Proof.
  intros Hf. revert i acc.
  induction onsets as [|onset onsets IH]; intros i acc Hi.
  { simpl. rewrite !app_nil_r. destruct acc as [td tl]; simpl.
    split; [by intros [= <-]|by intros [_ ->]]. }
  cbn [block_loop]. destruct (Qeq_dec f 0) as [Hz|Hnz].
  { destruct (floor_div_zero onset q f Hf Hz) as [e ->]. cbn [rbind].
    split; [done|]. intros [Hne _]. by destruct Hne. }
  rewrite (floor_div_Ok onset q f Hf Hnz). cbn [rbind].
  fold (converted_onset f onset). fold (cut_trial data f dur onset).
  rewrite py_index_nonneg by done.
  destruct (labels !! Z.to_nat i) as [label|] eqn:Hlabel; simpl.
  - rewrite IH by lia. simpl.
    apply lookup_lt_Some in Hlabel as Hlt.
    rewrite <- !(assoc_L (++)). simpl.
    replace (Z.to_nat (i + 1)) with (S (Z.to_nat i)) by lia.
    rewrite (drop_S _ _ _ Hlabel). simpl.
    split.
    + intros [Hlen ->]. split; [|done]. intros _. split; [done|].
      destruct onsets; [simpl; lia|]. destruct Hlen; [done|]. simpl in *. lia.
    + intros [Hlen ->]. split; [|done]. intros _. split; [done|].
      destruct Hlen as [_ Hlen]; [done|]. lia.
  - apply lookup_ge_None in Hlabel.
    split; [done|]. intros [Hlen _]. destruct Hlen as [_ Hlen]; [done|]. lia.
Qed.

(** The worker is the parser of the specification: it returns [res]
    exactly when the file exists and parses to [res]. *)
Lemma load_trials_one_session_Ok mats file chans orig dur tr res :
  load_trials_one_session mats file chans orig dur tr = Ok res ↔
    ∃ contents, mats !! file = Some contents ∧
      parsed_session contents chans orig dur tr res.
Proof.
  unfold load_trials_one_session, loadmat.
  destruct (mats !! file) as [contents|]; simpl; cycle 1.
  { split; [done|]. by intros (? & ? & _). }
  etrans; [|symmetry; apply exists_Some_eq]. unfold parsed_session.
  destruct (session_blocks contents chans orig tr) as [e|[[data1 data2] final]];
    simpl.
  { split; [done|]. by intros (? & ? & ? & ? & ? & ? & ? & ? & ? & _). }
  rewrite !py_index_nonneg by done.
  change (Z.to_nat 0) with 0%nat. change (Z.to_nat 1) with 1%nat.
  destruct (trigger_positions contents !! 0%nat) as [onsets1|]; simpl; cycle 1.
  { split; [done|]. by intros (? & ? & ? & ? & ? & ? & ? & ? & _ & ? & _). }
  destruct (trigger_positions contents !! 1%nat) as [onsets2|]; simpl; cycle 1.
  { split; [done|]. by intros (? & ? & ? & ? & ? & ? & ? & ? & _ & _ & ? & _). }
  destruct (class_labels contents !! 0%nat) as [codes1|]; simpl; cycle 1.
  { split; [done|].
    by intros (? & ? & ? & ? & ? & ? & ? & ? & _ & _ & _ & ? & _). }
  destruct (class_labels contents !! 1%nat) as [codes2|]; simpl; cycle 1.
  { split; [done|].
    by intros (? & ? & ? & ? & ? & ? & ? & ? & _ & _ & _ & _ & ? & _). }
  split.
  - intros Hrun. inv_bind Hrun.
    destruct (true_div_Ok _ _ _ Hbind) as [_ [f Hf]].
    apply (block_loop_Ok _ _ _ f) in Hbind0 as [Hlen1 ->]; [|done..].
    apply (block_loop_Ok _ _ _ f) in Hrun as [Hlen2 ->]; [|done..].
    cbn [fst snd app] in *.
    rewrite !length_fmap in *. rewrite !drop_0, <- !fmap_take.
    exists data1, data2, final, onsets1, onsets2, codes1, codes2, f.
    split_and!; try done.
    + by eexists.
    + intros Hne. destruct onsets1 as [|o1 onsets1].
      * by destruct Hlen2 as [Hz _].
      * by destruct Hlen1 as [Hz _].
    + destruct onsets1; [simpl; lia|]. destruct Hlen1 as [_ ?]; [done|]. lia.
    + destruct onsets2; [simpl; lia|]. destruct Hlen2 as [_ ?]; [done|]. lia.
  - intros (d1 & d2 & fr & on1 & on2 & c1 & c2 & f &
            [= <- <- <-] & [= <-] & [= <-] & [= <-] & [= <-] &
            (q & -> & Hf) & Hnz & Hl1 & Hl2 & Htrials & Hlabels).
    cbn [rbind]. apply rbind_Ok. eexists. split.
    + apply (block_loop_Ok _ _ _ f); [done..|]. split; [|done]. intros Hne.
      rewrite length_fmap. split; [|lia]. apply Hnz. by destruct onsets1.
    + apply (block_loop_Ok _ _ _ f); [done..|]. split.
      * intros Hne. rewrite length_fmap. split; [|lia]. apply Hnz.
        by destruct onsets1, onsets2.
      * cbn [fst snd app]. rewrite !drop_0, <- !fmap_take.
        destruct res as [trials labels]. simpl in *.
        by rewrite Htrials, Hlabels.
Qed.

End WorkerFacts.

(** * The worker pool *)

Lemma rbind_ret {A} (m : result A) : rbind m (λ a, Ok a) = m.
Proof. by destruct m. Qed.

Lemma rfoldM_app {A C} (body : C → A → result C) c l1 l2 :
  rfoldM body c (l1 ++ l2) = (c' ←! rfoldM body c l1; rfoldM body c' l2).
Proof.
  revert c. induction l1 as [|a l1 IH]; intros c; simpl; [done|].
  destruct (body c a); simpl; [done|]. apply IH.
Qed.

Lemma rfoldM_take_Raise {A C} (body : C → A → result C) c l k e :
  rfoldM body c (take k l) = Raise e → rfoldM body c l = Raise e.
Proof.
  intros Hk. rewrite <- (take_drop k l), rfoldM_app, Hk. done.
Qed.

Lemma take_drop_S {A} (l : list A) k m x :
  l !! (k + m)%nat = Some x →
  take (S m) (drop k l) = take m (drop k l) ++ [x].
Proof. intros Hx. apply take_S_r. by rewrite lookup_drop. Qed.

(** The part of a list between two positions, split at a third. *)
Lemma take_drop_split {A} (l : list A) k i j :
  (k ≤ i ≤ j)%nat →
  take (j - k) (drop k l) = take (i - k) (drop k l) ++ take (j - i) (drop i l).
Proof.
  intros Hk. replace (j - k)%nat with ((i - k) + (j - i))%nat by lia.
  rewrite <- take_take_drop, drop_drop. do 3 f_equal. lia.
Qed.

Section PoolFacts.
Context {T V C : Type}.
Variable func : T → result V.
Variable body : C → V → result C.
Variable tasks : list T.

#[local] Abbreviation results := (func <$> tasks).
#[local] Abbreviation feed := (λ c obj, v ←! obj; body c v).

(** What the loop [while self._index in self._unsorted] leaves behind,
    given fuel for every held entry: it stops at the first position that
    is not held, has released the entries before it in order, and holds
    the others. *)
Lemma release_spec (L : list (result V)) fuel (it : IMapIterator (V:=V)) :
  (size (it_unsorted it) ≤ fuel)%nat →
  (∀ i obj, it_unsorted it !! i = Some obj → L !! i = Some obj) →
  let r := release fuel it in
  (it_index it ≤ it_index r)%nat ∧
  it_unsorted r !! it_index r = None ∧
  (∀ i, (it_index it ≤ i < it_index r)%nat → is_Some (it_unsorted it !! i)) ∧
  (∀ i, it_unsorted r !! i =
        if decide (it_index it ≤ i < it_index r)%nat then None
        else it_unsorted it !! i) ∧
  it_items r =
    it_items it ++ take (it_index r - it_index it) (drop (it_index it) L).
Proof.
  revert it. induction fuel as [|fuel IH]; intros it Hsize HL; simpl.
  { assert (it_unsorted it = ∅) as Hempty by (apply map_size_empty_iff; lia).
    split_and!; [done|by rewrite Hempty|lia| |].
    - intros i. case_decide; [lia|done].
    - by rewrite Nat.sub_diag, take_0, app_nil_r. }
  destruct (it_unsorted it !! it_index it) as [obj|] eqn:Hobj; cycle 1.
  { split_and!; [done|done|lia| |].
    - intros i. case_decide; [lia|done].
    - by rewrite Nat.sub_diag, take_0, app_nil_r. }
  set (it' := {| it_index := S (it_index it);
                 it_items := it_items it ++ [obj];
                 it_unsorted := delete (it_index it) (it_unsorted it) |}).
  destruct (IH it') as (Hle & Hnone & Hheld & Hmap & Hitems).
  { simpl. rewrite map_size_delete_Some by done. lia. }
  { simpl. intros i o [_ Ho]%lookup_delete_Some. by apply HL. }
  simpl in *. split_and!.
  - lia.
  - done.
  - intros i Hi. destruct (decide (i = it_index it)) as [->|Hne]; [by eexists|].
    destruct (Hheld i) as [o Ho]; [lia|].
    apply lookup_delete_Some in Ho as [_ Ho]. by eexists.
  - intros i. rewrite Hmap. destruct (decide (i = it_index it)) as [->|Hne].
    + rewrite lookup_delete_eq. repeat case_decide; done || lia.
    + rewrite lookup_delete_ne by done. repeat case_decide; done || lia.
  - rewrite Hitems, <- (assoc_L (++)). f_equal.
    replace (it_index (release fuel it') - it_index it)%nat
      with (S (it_index (release fuel it') - S (it_index it))) by lia.
    simpl. rewrite (drop_S L obj (it_index it)) by (by apply HL). done.
Qed.


Lemma pool_inv_init c0 : pool_inv func body tasks c0 (pool_init tasks c0).
Proof.
  exists 0%nat. simpl. split_and!; [done|done|lia|lia| |done].
  intros i. rewrite elem_of_list_to_set, elem_of_seq, lookup_empty. intuition lia.
Qed.

Lemma pool_inv_step c0 st st' :
  pool_inv func body tasks c0 st → pool_step func body tasks st st' → pool_inv func body tasks c0 st'.
Proof.
  intros (k & Hmain & Hitems & Hk & Hrun & Hheld) Hstep.
  destruct Hstep as [st i t c Hc Hi Ht|st c obj items Hc Hit].
  - assert (results !! i = Some (func t)) as Hres
      by (by rewrite list_lookup_fmap, Ht).
    apply Hrun in Hi as Hi'. destruct Hi' as [Hirange Hinone].
    unfold iter_set. destruct (decide (it_index (iter st) = i)) as [<-|Hne].
    + destruct (release_spec results (size (it_unsorted (iter st)))
                  {| it_index := S (it_index (iter st));
                     it_items := it_items (iter st) ++ [func t];
                     it_unsorted := it_unsorted (iter st) |})
        as (Hle & Hnone & Hin & Hmap & Hits); [done| |].
      { intros j o Ho. by apply Hheld in Ho as [_ ?]. }
      exists k. simpl in *.
      set (r := release _ _) in *.
      assert (it_index r ≤ length tasks)%nat as Hbound.
      { destruct (decide (it_index r ≤ length tasks)%nat) as [|Hgt]; [done|].
        destruct (Hin (length tasks)) as [o Ho]; [lia|].
        apply Hheld in Ho. lia. }
      split_and!.
      * done.
      * rewrite Hits, Hitems.
        rewrite (take_drop_split results k (it_index (iter st)) (it_index r))
          by lia.
        rewrite <- (assoc_L (++)). f_equal.
        replace (it_index r - it_index (iter st))%nat
          with (S (it_index r - S (it_index (iter st)))) by lia.
        by rewrite (drop_S results (func t) (it_index (iter st))).
      * lia.
      * lia.
      * intros j. rewrite elem_of_difference, elem_of_singleton, Hrun, Hmap.
        case_decide as Hj.
        -- split; [|lia]. intros [[? Hjn] ?].
           destruct (Hin j) as [o Ho]; [lia|]. rewrite Hjn in Ho. done.
        -- split; [intros [[? ?] ?]; split; [lia|done]|].
           intros [? ?]. split; [split; [lia|done]|lia].
      * intros j o. rewrite Hmap. case_decide as Hj; [done|].
        intros Ho. apply Hheld in Ho as Ho'. destruct Ho' as [? ?].
        split; [|done]. split; [|lia].
        destruct (decide (j = it_index r)) as [->|]; [|lia].
        rewrite Hmap in Hnone. case_decide; [lia|]. rewrite Hnone in Ho. done.
    + exists k. simpl. split_and!; [done|done|lia|lia| |].
      * intros j. rewrite elem_of_difference, elem_of_singleton, Hrun.
        rewrite lookup_insert_None. intuition lia.
      * intros j o [[<- <-]|[? Ho]]%lookup_insert_Some.
        -- split; [lia|done].
        -- by apply Hheld.
  - simpl. rewrite Hit in Hitems.
    assert (k < it_index (iter st))%nat as Hlt.
    { destruct (decide (k < it_index (iter st))%nat); [done|].
      replace (it_index (iter st) - k)%nat with 0%nat in Hitems by lia. done. }
    replace (it_index (iter st) - k)%nat with (S (it_index (iter st) - S k))
      in Hitems by lia.
    destruct (drop k results) as [|obj' rest] eqn:Hdrop; [done|].
    simpl in Hitems. injection Hitems as <- ->.
    assert (results !! k = Some obj) as Hobj.
    { rewrite <- (Nat.add_0_r k), <- lookup_drop, Hdrop. done. }
    exists (S k). simpl. split_and!; [| |lia|lia|done|done].
    + rewrite (take_S_r _ _ _ Hobj), rfoldM_app, <- Hmain, Hc. simpl.
      by destruct (v ←! obj; body c v).
    + f_equal. replace (S k) with (k + 1)%nat by lia.
      by rewrite <- drop_drop, Hdrop.
Qed.

Lemma pool_inv_rtc c0 st :
  rtc (pool_step func body tasks) (pool_init tasks c0) st → pool_inv func body tasks c0 st.
Proof.
  revert st. apply (rtc_ind_r (pool_inv func body tasks c0)).
  - apply pool_inv_init.
  - intros st st' _ Hstep Hinv. by eapply pool_inv_step.
Qed.


(** Whatever the order of completion, the loop ends as the sequential
    loop does. *)
Lemma imap_loop_sound c0 out :
  imap_loop func body tasks c0 out → out = map_loop func body tasks c0.
Proof.
  intros (st & Hrtc%pool_inv_rtc & Hmain & Hend).
  destruct Hrtc as (k & Hk & Hitems & Hrange & _ & _).
  unfold map_loop. rewrite Hmain in Hk. destruct Hend as [[e ->]|[Hidx Hnil]].
  - symmetry. by eapply rfoldM_take_Raise.
  - rewrite Hidx, Hnil in Hitems.
    assert (length (take (length tasks - k) (drop k results)) = 0%nat) as Hlen
      by by rewrite <- Hitems.
    rewrite length_take, length_drop, length_fmap in Hlen.
    rewrite take_ge in Hk by (rewrite length_fmap; lia). done.
Qed.

Lemma step_finish_to i t c st st' :
  main st = Ok c → i ∈ running st → tasks !! i = Some t →
  st' = {| running := running st ∖ {[i]};
           iter := iter_set i (func t) (iter st);
           main := main st |} →
  pool_step func body tasks st st'.
Proof. intros ? ? ? ->. by eapply step_finish. Qed.

Lemma step_next_to c obj items st st' :
  main st = Ok c → it_items (iter st) = obj :: items →
  st' = {| running := running st;
           iter := {| it_index := it_index (iter st);
                      it_items := items;
                      it_unsorted := it_unsorted (iter st) |};
           main := (v ←! obj; body c v) |} →
  pool_step func body tasks st st'.
Proof. intros ? ? ->. by eapply step_next. Qed.

Lemma pool_in_order c0 k :
  (k ≤ length tasks)%nat →
  ∃ st, rtc (pool_step func body tasks) (pool_init tasks c0) st ∧
        main st = rfoldM feed c0 (take k results) ∧
        (∀ c, main st = Ok c → st = pool_after tasks k (Ok c)).
Proof.
  induction k as [|k IH]; intros Hk.
  { exists (pool_init tasks c0). split; [done|]. split; [done|].
    intros c [= <-]. unfold pool_init, pool_after. by rewrite Nat.sub_0_r. }
  destruct IH as (st & Hrtc & Hmain & Hst); [lia|].
  destruct (lookup_lt_is_Some_2 tasks k) as [t Ht]; [lia|].
  assert (results !! k = Some (func t)) as Hres by (by rewrite list_lookup_fmap, Ht).
  rewrite (take_S_r _ _ _ Hres), rfoldM_app, <- Hmain.
  destruct (main st) as [e|c] eqn:Hc.
  { exists st. split; [done|]. rewrite Hc. split; [done|]. done. }
  specialize (Hst c eq_refl). subst st. simpl. rewrite rbind_ret.
  exists {| running := list_to_set (seq k (length tasks - k)) ∖ {[k]};
            iter := {| it_index := S k; it_items := []; it_unsorted := ∅ |};
            main := (v ←! func t; body c v) |}.
  split; [|split; [reflexivity|]].
  - eapply rtc_r; [eapply rtc_r; [exact Hrtc|]|].
    + apply (step_finish_to k t c); simpl; [done| |done|reflexivity].
      rewrite elem_of_list_to_set, elem_of_seq. lia.
    + apply (step_next_to c (func t) []); unfold iter_set; simpl;
        rewrite ?decide_True, ?map_size_empty by done; done.
  - intros c' Hc'. unfold pool_after. simpl. f_equal.
    + apply set_eq. intros i.
      rewrite elem_of_difference, !elem_of_list_to_set, !elem_of_seq,
        elem_of_singleton. lia.
    + destruct (func t); simpl in *; [done|]. by rewrite Hc'.
Qed.

(** Some order of completion does end the loop. *)
Lemma imap_loop_complete c0 :
  imap_loop func body tasks c0 (map_loop func body tasks c0).
Proof.
  destruct (pool_in_order c0 (length tasks)) as (st & Hrtc & Hmain & Hst); [done|].
  rewrite take_ge in Hmain by (by rewrite length_fmap).
  exists st. split; [done|]. split; [done|]. fold (map_loop func body tasks c0) in Hmain.
  destruct (map_loop func body tasks c0) as [e|c] eqn:Hout; [left; by exists e|].
  right. rewrite (Hst c Hmain). simpl. done.
Qed.

(** No order of completion blocks the loop: a reachable state that is not
    final can take a step. *)
Lemma pool_progress c0 st :
  rtc (pool_step func body tasks) (pool_init tasks c0) st →
  (∃ out, pool_result tasks st out) ∨ (∃ st', pool_step func body tasks st st').
Proof.
  intros (k & Hmain & Hitems & Hrange & Hrun & Hheld)%pool_inv_rtc.
  destruct (main st) as [e|c] eqn:Hc.
  { left. exists (Raise e). split; [done|]. left. by exists e. }
  destruct (it_items (iter st)) as [|obj items] eqn:Hit.
  - destruct (decide (it_index (iter st) = length tasks)) as [Hidx|Hidx].
    + left. exists (Ok c). split; [done|]. by right.
    + right. destruct (lookup_lt_is_Some_2 tasks (it_index (iter st))) as [t Ht];
        [lia|].
      eexists. eapply (step_finish _ _ _ _ (it_index (iter st)) t c); [done| |done].
      apply Hrun. split; [lia|].
      destruct (it_unsorted (iter st) !! it_index (iter st)) as [o|] eqn:Ho; [|done].
      apply Hheld in Ho. lia.
  - right. eexists. by eapply step_next.
Qed.

End PoolFacts.

(** * The coordinator *)

Lemma rmapM_app {A B} (f : A → result B) l1 l2 :
  rmapM f (l1 ++ l2) = (b1 ←! rmapM f l1; b2 ←! rmapM f l2; Ok (b1 ++ b2)).
Proof.
  induction l1 as [|a l1 IH]; simpl.
  - by destruct (rmapM f l2).
  - destruct (f a); simpl; [done|]. rewrite IH.
    destruct (rmapM f l1); simpl; [done|]. by destruct (rmapM f l2).
Qed.

Lemma broadcast_axis_same {A} (l : list A) : broadcast_axis (length l) l = Ok l.
Proof. unfold broadcast_axis. by rewrite decide_True. Qed.

(** A slice assignment at a cursor: either the values fit and land at the
    cursor, or the cursor is at the end already, at most one value was
    given, and nothing is stored. *)
Lemma assign_slice_at {A} (dest : list A) cursor (values dest' : list A) :
  0 ≤ cursor →
  assign_slice dest cursor (cursor + Z.of_nat (length values)) values = Ok dest' →
  (cursor + Z.of_nat (length values) ≤ Z.of_nat (length dest) →
     dest' = take (Z.to_nat cursor) dest ++ values
             ++ drop (Z.to_nat cursor + length values) dest) ∧
  (Z.of_nat (length dest) < cursor + Z.of_nat (length values) →
     (length values ≤ 1)%nat ∧ Z.of_nat (length dest) ≤ cursor ∧ dest' = dest).
Proof.
  intros Hc. unfold assign_slice, slice_bound. cbv zeta.
  destruct (Z.ltb_spec cursor 0); [lia|].
  destruct (Z.ltb_spec (cursor + Z.of_nat (length values)) 0); [lia|].
  intros Hrun. inv_bind Hrun. injection Hrun as <-.
  unfold broadcast_axis in Hbind. case_decide as Hlen.
  - injection Hbind as <-. split.
    + intros Hfit. rewrite !Z.min_l by lia. do 3 f_equal. lia.
    + intros Hover. assert (length values = 0%nat ∧ Z.of_nat (length dest) ≤ cursor)
        as [Hnil Hge] by lia.
      destruct values; [|done]. simpl. split; [lia|]. split; [done|].
      rewrite Z.min_r by lia. rewrite (Z.min_r (cursor + _)) by (simpl; lia).
      rewrite Z.sub_diag, Nat.add_0_r. simpl. by rewrite take_drop.
  - destruct values as [|x [|? ?]]; try done. injection Hbind as <-.
    simpl in *. assert (Z.of_nat (length dest) ≤ cursor) by lia.
    split; [lia|]. intros _. split; [lia|]. split; [done|].
    rewrite !Z.min_r by lia. rewrite Z.sub_diag, Nat.add_0_r. simpl.
    by rewrite take_drop.
Qed.

Lemma assign_slice_length {A} (dest : list A) a b (values dest' : list A) :
  assign_slice dest a b values = Ok dest' → length dest' = length dest.
Proof.
  unfold assign_slice. cbv zeta. intros Hrun. inv_bind Hrun. injection Hrun as <-.
  pose proof (slice_bound_range (Z.of_nat (length dest)) a).
  pose proof (slice_bound_range (Z.of_nat (length dest)) b).
  assert (length a0 = Z.to_nat (slice_bound (Z.of_nat (length dest)) b
                                - slice_bound (Z.of_nat (length dest)) a)) as Hlen.
  { unfold broadcast_axis in Hbind. case_decide; [by injection Hbind as <-|].
    destruct values as [|x [|? ?]]; try done. injection Hbind as <-.
    by rewrite length_replicate. }
  rewrite !length_app, length_take, length_drop, Hlen. lia.
Qed.

Section CoordinatorFacts.
Context `{Samples}.

Lemma assign_trials_at self data cursor values data' :
  0 ≤ cursor →
  assign_trials (output_shape self) data cursor
    (cursor + Z.of_nat (length values)) values = Ok data' →
  ∃ rows,
    rmapM (broadcast_trial (Z.to_nat (output_shape self).1)
             (Z.to_nat (output_shape self).2)) values = Ok rows ∧
    length data' = length data ∧
    (cursor + Z.of_nat (length values) ≤ Z.of_nat (length data) →
       data' = take (Z.to_nat cursor) data ++ rows
               ++ drop (Z.to_nat cursor + length values) data) ∧
    (Z.of_nat (length data) < cursor + Z.of_nat (length values) →
       (length values ≤ 1)%nat ∧ Z.of_nat (length data) ≤ cursor ∧ data' = data).
Proof.
  intros Hc Hrun. unfold assign_trials in Hrun. inv_bind Hrun.
  destruct a as [shp|].
  - inv_bind Hrun. exists a. split; [done|].
    apply rmapM_length in Hbind0 as Hlen. rewrite <- Hlen in *.
    split; [exact (assign_slice_length _ _ _ _ _ Hrun)|].
    by apply assign_slice_at.
  - destruct values as [|t values]; cycle 1.
    { revert Hbind. unfold stack_shape.
      match goal with |- (if ?b then _ else _) = _ → _ => by destruct b end. }
    destruct (_ =? 0) in Hrun; [|done]. injection Hrun as <-.
    exists []. split; [done|]. split; [done|]. simpl. split.
    + intros _. rewrite Nat.add_0_r. by rewrite take_drop.
    + intros ?. split; [lia|]. split; [lia|done].
Qed.

(** One round of the loop keeps the tensors in step with the sessions
    seen so far. *)
Lemma store_session_holds self n trials codes st session st' :
  tensors_hold self n trials codes st →
  length session.1 = length session.2 →
  store_session self st session = Ok st' →
  tensors_hold self n (trials ++ session.1) (codes ++ session.2) st'.
Proof.
  destruct st as [[data labels] cursor], session as [values lbls],
    st' as [[data' labels'] cursor'].
  intros (Hd & Hl & -> & Hcodes & Hdata & Hlabels) Hlen Hrun.
  simpl in Hlen. unfold store_session in Hrun. inv_bind Hrun.
  injection Hrun as <- <- <-. rewrite <- Hlen in Hbind0.
  apply assign_trials_at in Hbind as (rows & Hrows & Hd' & Hfit & Hover); [|lia].
  apply assign_slice_length in Hbind0 as Hl'.
  rewrite Hlen in Hbind0.
  apply assign_slice_at in Hbind0 as [Hfitl Hoverl]; [|lia].
  rewrite <- Hlen in Hfitl, Hoverl.
  apply rmapM_length in Hrows as Hrl.
  unfold tensors_hold. simpl. rewrite !length_app.
  split_and!; [lia|lia|lia|lia| |].
  - destruct (decide (length trials + length values ≤ n)%nat) as [Hle|Hgt].
    + rewrite take_ge in Hdata by lia. rewrite take_ge by (rewrite length_app; lia).
      rewrite rmapM_app, Hdata, Hrows. simpl. f_equal.
      rewrite Hfit by lia. rewrite Nat2Z.id, (assoc_L (++)).
      rewrite take_app_length'; [done|].
      rewrite length_app, length_take. lia.
    + destruct Hover as (Hk & Hge & ->); [lia|].
      rewrite take_app_le by lia. rewrite Hdata.
      by rewrite !take_ge by lia.
  - destruct (decide (length trials + length values ≤ n)%nat) as [Hle|Hgt].
    + rewrite take_ge in Hlabels by lia. rewrite take_ge by (rewrite length_app; lia).
      rewrite Hfitl by lia. rewrite Nat2Z.id, Hlabels, Hcodes.
      rewrite (assoc_L (++)). rewrite take_app_length'; [done|].
      rewrite length_app, length_take. lia.
    + destruct Hoverl as (Hk & Hge & ->); [lia|].
      rewrite take_app_le by lia. rewrite Hlabels.
      by rewrite !take_ge by lia.
Qed.

Lemma fold_store_holds self n trials codes st sessions st' :
  tensors_hold self n trials codes st →
  Forall (λ s : list trial * list Z, length s.1 = length s.2) sessions →
  rfoldM (store_session self) st sessions = Ok st' →
  tensors_hold self n (trials ++ concat (fst <$> sessions))
    (codes ++ concat (snd <$> sessions)) st'.
Proof.
  revert trials codes st. induction sessions as [|s sessions IH];
    intros trials codes st Hst Hlen Hrun; simpl in *.
  - injection Hrun as <-. by rewrite !app_nil_r.
  - inv_bind Hrun. apply Forall_cons in Hlen as [Hs Hlen].
    rewrite !(assoc_L (++)). eapply IH; [|done|done].
    by eapply store_session_holds.
Qed.

End CoordinatorFacts.

(** * The extraction *)

Lemma rmapM_Forall2 {A B} (f : A → result B) l l' :
  rmapM f l = Ok l' → Forall2 (λ a b, f a = Ok b) l l'.
Proof.
  revert l'. induction l as [|a l IH]; intros l' Hl; simpl in Hl.
  - injection Hl as <-. constructor.
  - inv_bind Hl. injection Hl as <-. constructor; [done|by apply IH].
Qed.

(** A loop over outcomes that ends well has met no exception: it is the
    loop of the body over the values. *)
Lemma rfoldM_outcomes {A V C} (func : A → result V) (body : C → V → result C)
    c tasks out :
  rfoldM (λ c obj, v ←! obj; body c v) c (func <$> tasks) = Ok out →
  ∃ values, Forall2 (λ t v, func t = Ok v) tasks values ∧
            rfoldM body c values = Ok out.
Proof.
  revert c. induction tasks as [|t tasks IH]; intros c Hrun; simpl in Hrun.
  - exists []. split; [constructor|done].
  - inv_bind Hrun. inv_bind Hbind.
    destruct (IH _ Hrun) as (values & Hvalues & Hfold).
    exists (a0 :: values). split; [by constructor|]. simpl. by rewrite Hbind.
Qed.

Lemma rfoldM_values {A V C} (func : A → result V) (body : C → V → result C)
    c tasks values :
  Forall2 (λ t v, func t = Ok v) tasks values →
  rfoldM (λ c obj, v ←! obj; body c v) c (func <$> tasks)
    = rfoldM body c values.
Proof.
  intros Hvalues. revert c. induction Hvalues as [|t v tasks values Hv _ IH];
    intros c; simpl; [done|].
  rewrite Hv. simpl. destruct (body c v); simpl; [done|]. apply IH.
Qed.

Lemma zip_concat {A B} (ls : list (list A * list B)) :
  Forall (λ s, length s.1 = length s.2) ls →
  concat ((λ s, zip s.1 s.2) <$> ls) = zip (concat (fst <$> ls)) (concat (snd <$> ls)).
Proof.
  induction 1 as [|s ls Hs _ IH]; [done|].
  rewrite !fmap_cons. simpl. rewrite IH. by rewrite zip_with_app.
Qed.

Lemma np_full_Ok {A} (x : A) n l :
  np_full x n = Ok l → 0 ≤ n ∧ l = replicate (Z.to_nat n) x.
Proof.
  unfold np_full. destruct (Z.ltb_spec n 0); [done|]. by intros [= <-].
Qed.

Lemma Forall2_compose {A B C} (R1 : A → B → Prop) (R2 : B → C → Prop) la lb lc :
  Forall2 R1 la lb → Forall2 R2 lb lc →
  Forall2 (λ a c, ∃ b, R1 a b ∧ R2 b c) la lc.
Proof.
  intros H1. revert lc. induction H1 as [|a b la lb Hab _ IH]; intros lc H2.
  - apply Forall2_nil_inv_l in H2 as ->. constructor.
  - apply Forall2_cons_inv_l in H2 as (c & lc' & Hbc & H2 & ->).
    constructor; [by exists b|by apply IH].
Qed.

Section ExtractionFacts.
Context `{Samples}.

Lemma parsed_session_lengths contents chans orig dur tr res :
  parsed_session contents chans orig dur tr res →
  ∃ onsets1 onsets2,
    trigger_positions contents !! 0%nat = Some onsets1 ∧
    trigger_positions contents !! 1%nat = Some onsets2 ∧
    length res.1 = (length onsets1 + length onsets2)%nat ∧
    length res.2 = (length onsets1 + length onsets2)%nat.
Proof.
  intros (d1 & d2 & fr & on1 & on2 & c1 & c2 & f & _ & Ho1 & Ho2 & _ & _ & _ &
          _ & Hl1 & Hl2 & -> & ->).
  exists on1, on2. split; [done|]. split; [done|].
  rewrite !length_app, !length_fmap, !length_take. lia.
Qed.

Lemma worker_fn_lengths self mats file res :
  worker_fn self mats file = Ok res → length res.1 = length res.2.
Proof.
  intros (contents & _ & Hp)%load_trials_one_session_Ok.
  apply parsed_session_lengths in Hp as (? & ? & _ & _ & -> & ->). done.
Qed.

Lemma extract_setup_Ok self files st :
  extract_setup self = Ok (files, st) →
  mat_files self = Ok files ∧
  0 ≤ n_trials self ∧
  tensors_hold self (Z.to_nat (n_trials self)) [] [] st.
Proof.
  unfold extract_setup. intros Hrun. inv_bind Hrun. injection Hrun as <- <-.
  unfold np_empty_data, np_empty_labels in *. inv_bind Hbind0.
  apply np_full_Ok in Hbind0 as [Hn ->].
  apply np_full_Ok in Hbind1 as [_ ->].
  split; [done|]. split; [done|]. unfold tensors_hold.
  rewrite !length_replicate, !take_nil. repeat split.
Qed.

(** The pool changes nothing: every order of completion ends the
    extraction as the sequential run does, and some order does end it. *)
Lemma extract_parallel_iff self mats out :
  extract_parallel self mats out ↔ out = extract_sequential self mats.
Proof.
  unfold extract_parallel, extract_sequential.
  destruct (extract_setup self) as [e|[files st]]; simpl; [done|].
  split; [apply imap_loop_sound|]. intros ->. apply imap_loop_complete.
Qed.

Lemma mat_files_order self files :
  mat_files self = Ok files →
  Forall2 (λ '(subj, sess) file, mat_file self subj sess = Ok file)
    session_order files.
Proof.
  intros Hfiles. vm_compute in Hfiles. injection Hfiles as <-.
  unfold session_order. 
  repeat (constructor; [vm_compute; reflexivity|]). constructor.
Qed.

(** A run of the extraction that ends well has parsed every session, and
    holds their trials in session order. *)
Lemma extract_sequential_Ok self mats st :
  extract_sequential self mats = Ok st →
  ∃ files sessions,
    mat_files self = Ok files ∧
    Forall2 (λ file s, worker_fn self mats file = Ok s) files sessions ∧
    0 ≤ n_trials self ∧
    tensors_hold self (Z.to_nat (n_trials self))
      (concat (fst <$> sessions)) (concat (snd <$> sessions)) st.
Proof.
  unfold extract_sequential. intros Hrun. inv_bind Hrun.
  destruct a as [files st0].
  apply extract_setup_Ok in Hbind as (Hfiles & Hn & Hst0).
  apply rfoldM_outcomes in Hrun as (sessions & Hsessions & Hfold).
  exists files, sessions. split; [done|]. split; [done|]. split; [done|].
  apply (fold_store_holds _ _ [] [] st0 sessions st); [done| |done].
  clear Hfold Hfiles. induction Hsessions as [|file s files sessions Hs _ IH];
    constructor; [by eapply worker_fn_lengths|exact IH].
Qed.

Lemma tensors_hold_rows self n sessions data labels cursor :
  Forall (λ s : list trial * list Z, length s.1 = length s.2) sessions →
  tensors_hold self n (concat (fst <$> sessions)) (concat (snd <$> sessions))
    (data, labels, cursor) →
  cursor = Z.of_nat (length (session_rows sessions)) ∧
  ∀ i t code,
    session_rows sessions !! i = Some (t, code) → (i < n)%nat →
    labels !! i = Some code ∧
    ∃ row, data !! i = Some row ∧
           broadcast_trial (Z.to_nat (output_shape self).1)
             (Z.to_nat (output_shape self).2) t = Ok row.
Proof.
  intros Hlens (Hd & Hl & -> & Hcodes & Hdata & Hlabels).
  unfold session_rows. rewrite zip_concat by done.
  rewrite length_zip_with, Hcodes, Nat.min_id. split; [done|].
  intros i t code [Ht Hcode]%lookup_zip_Some Hi.
  - split.
    + apply lookup_lt_Some in Hcode as Hlt.
      rewrite <- (lookup_take_lt labels (length (concat (snd <$> sessions))))
        by done.
      rewrite <- Hlabels. by rewrite lookup_take_lt.
    + destruct (rmapM_lookup _ _ _ i t Hdata) as (row & Hrow & Hlook).
      { by rewrite lookup_take_lt. }
      exists row. split; [|done].
      apply lookup_take_Some in Hlook as [? _]. done.
Qed.

(** C1.  For fixed session files and configuration, every order in which
    the workers complete ends the extraction with the result of the
    sequential single-worker run, and some order does end it.  When the
    result is a tensor pair, the sessions were parsed in the order
    subjects 1..64 ascending, A before B (each session block 1 before
    block 2, in trigger order), and the [i]-th trial of that sequence and
    its label sit at row [i] of the data tensor and at position [i] of the
    label vector. *)
Theorem extraction_order_independent self mats :
  (∀ out, extract_parallel self mats out ↔ out = extract_sequential self mats) ∧
  (∀ data labels cursor,
     extract_parallel self mats (Ok (data, labels, cursor)) →
     ∃ sessions,
       Forall2
         (λ '(subj, sess) s, ∃ file contents,
            mat_file self subj sess = Ok file ∧
            mats !! file = Some contents ∧
            parsed_session contents (channels_to_use self)
              (original_sample_rate_hz self) (trial_duration_samples self)
              (transform self) s)
         session_order sessions ∧
       cursor = Z.of_nat (length (session_rows sessions)) ∧
       ∀ (i : nat) t code,
         session_rows sessions !! i = Some (t, code) →
         Z.of_nat i < n_trials self →
         labels !! i = Some code ∧
         ∃ row, data !! i = Some row ∧
                broadcast_trial (Z.to_nat (output_shape self).1)
                  (Z.to_nat (output_shape self).2) t = Ok row).
Proof.
  split; [apply extract_parallel_iff|].
  intros data labels cursor Hrun.
  apply (proj1 (extract_parallel_iff self mats _)) in Hrun. symmetry in Hrun.
  apply extract_sequential_Ok in Hrun as (files & sessions & Hfiles & Hs & Hn & Hst).
  assert (Forall (λ s : list trial * list Z, length s.1 = length s.2) sessions)
    as Hlens.
  { clear Hst Hfiles. induction Hs; constructor; [by eapply worker_fn_lengths|done]. }
  destruct (tensors_hold_rows _ _ _ _ _ _ Hlens Hst) as [Hcursor Hrows].
  exists sessions. split; [|split; [done|]].
  - apply mat_files_order in Hfiles.
    pose proof (Forall2_compose _ _ _ _ _ Hfiles Hs) as Hboth.
    eapply Forall2_impl; [exact Hboth|].
    intros [subj sess] s (file & Hfile & Hw).
    apply load_trials_one_session_Ok in Hw as (contents & Hc & Hp).
    by exists file, contents.
  - intros i t code Hi Hlt. apply Hrows; [done|lia].
Qed.

End ExtractionFacts.

(** * Onsets, windows and labels *)

(** The floor of a quotient of integers, as a quotient of rationals. *)
Lemma Qfloor_div_inject (a b c : Z) :
  0 < b → 0 < c →
  Qfloor (inject_Z a / (inject_Z b / inject_Z c)) = (a * c) `div` b.
Proof.
  intros Hb Hc.
  assert (inject_Z a / (inject_Z b / inject_Z c) == (a * c) # Z.to_pos b)%Q as ->.
  { unfold Qeq, Qdiv, Qmult, Qinv, inject_Z. simpl.
    destruct b as [|b|b]; try lia. destruct c as [|c|c]; try lia. simpl. lia. }
  unfold Qfloor. f_equal. rewrite Z2Pos.id by done. done.
Qed.

(** The converted onset is the integer [c] with
    [c * factor <= onset < (c + 1) * factor]. *)
Lemma converted_onset_bounds factor trial_onset :
  (0 < factor)%Q →
  (inject_Z (converted_onset factor trial_onset) * factor
     <= inject_Z trial_onset)%Q ∧
  (inject_Z trial_onset
     < inject_Z (converted_onset factor trial_onset + 1) * factor)%Q.
Proof.
  intros Hpos. unfold converted_onset.
  assert (¬ (factor == 0)%Q) as Hnz.
  { intros Hz. rewrite Hz in Hpos. by apply Qlt_irrefl in Hpos. }
  pose proof (Qmult_div_r (inject_Z trial_onset) factor Hnz) as Hmul.
  rewrite Qmult_comm in Hmul. split.
  - rewrite <- Hmul at 2. apply Qmult_le_r; [done|]. apply Qfloor_le.
  - rewrite <- Hmul at 1. apply Qmult_lt_r; [done|]. apply Qlt_floor.
Qed.

(** Where the factor is the quotient of the rates exactly, the conversion
    is a division of integers. *)
Lemma converted_onset_exact factor original_rate final_rate trial_onset :
  0 < original_rate → 0 < final_rate →
  (factor == inject_Z original_rate / inject_Z final_rate)%Q →
  converted_onset factor trial_onset
    = (trial_onset * final_rate) `div` original_rate.
Proof.
  intros Ho Hf Hq. rewrite <- Qfloor_div_inject by done.
  unfold converted_onset. apply Qfloor_comp. by rewrite Hq.
Qed.

Lemma converted_onset_one factor trial_onset :
  (factor == 1)%Q → converted_onset factor trial_onset = trial_onset.
Proof.
  intros Hq. rewrite <- (Qfloor_Z trial_onset) at 2.
  unfold converted_onset. apply Qfloor_comp. rewrite Hq.
  unfold Qdiv. change (/ 1)%Q with 1%Q. apply Qmult_1_r.
Qed.

(** The two arithmetic steps of the worker give the converted onset. *)
Lemma worker_conversion original_rate final_rate factor trial_onset :
  downsample_factor_is original_rate final_rate factor →
  ¬ (factor == 0)%Q →
  (downsample_factor ←! true_div original_rate final_rate;
   floor_div trial_onset downsample_factor)
    = Ok (converted_onset factor trial_onset).
Proof.
  intros (q & -> & Hq) Hnz. cbn [rbind]. by apply floor_div_Ok.
Qed.

(** The factors of three transforms on the 250 Hz signal: none, a
    downsampling by 2, and a resampling to 100 Hz. *)
Lemma downsample_factor_250_250 :
  ∃ factor, downsample_factor_is 250 250 factor ∧ (factor == 1)%Q.
Proof. eexists. split; [eexists; split; vm_compute; reflexivity|]. done. Qed.

Lemma downsample_factor_250_125 :
  ∃ factor, downsample_factor_is 250 125 factor ∧ (factor == 2)%Q.
Proof. eexists. split; [eexists; split; vm_compute; reflexivity|]. done. Qed.

Lemma downsample_factor_250_100 :
  ∃ factor, downsample_factor_is 250 100 factor ∧ (factor == 5 # 2)%Q.
Proof. eexists. split; [eexists; split; vm_compute; reflexivity|]. done. Qed.

(** A quotient of rates that is no float: [250 / 15] is rounded up, and
    the onset 50, three times [50 / 3], converts to 2, where the division
    of integers gives 3. *)
Remark rounded_factor_conversion :
  (downsample_factor ←! true_div 250 15; floor_div 50 downsample_factor)
    = Ok 2 ∧
  (50 * 15) `div` 250 = 3.
Proof. split; vm_compute; reflexivity. Qed.

Section WindowFacts.
Context `{Samples}.

Lemma slice_last_axis_length (data : matrix sample) a b :
  length (slice_last_axis data a b) = length data.
Proof. unfold slice_last_axis. by rewrite length_fmap. Qed.

(** A window inside the signal has the full width on every channel. *)
Lemma window_inside (data : matrix sample) T c n :
  Forall (λ row, length row = T) data →
  0 ≤ c → 0 ≤ n → c + n ≤ Z.of_nat T →
  has_shape (length data) (Z.to_nat n) (slice_last_axis data c (c + n)).
Proof.
  intros Hrect Hc Hn Hfit. split; [apply slice_last_axis_length|].
  unfold slice_last_axis. apply Forall_fmap. eapply Forall_impl; [exact Hrect|].
  intros row Hrow. simpl in *.
  pose proof (py_slice_inside row c n Hc Hn) as Hlen. lia.
Qed.

(** A window that runs past the end of the signal is narrower than asked
    for, on every channel. *)
Lemma window_past_end (data : matrix sample) T c n :
  Forall (λ row, length row = T) data →
  0 < n → Z.of_nat T < c + n →
  length (slice_last_axis data c (c + n)) = length data ∧
  Forall (λ row, Z.of_nat (length row) < n) (slice_last_axis data c (c + n)).
Proof.
  intros Hrect Hn Hpast. split; [apply slice_last_axis_length|].
  unfold slice_last_axis. apply Forall_fmap. eapply Forall_impl; [exact Hrect|].
  intros row Hrow. simpl in *. apply py_slice_past_end; [done|lia].
Qed.

(** The same window is what is left of the signal from its start on. *)
Lemma window_past_end_rest (data : matrix sample) T c n :
  Forall (λ row, length row = T) data →
  Z.of_nat T < c + n →
  slice_last_axis data c (c + n) = signal_from data c ∧
  (0 ≤ c →
   Forall (λ row, Z.of_nat (length row) = Z.max 0 (Z.of_nat T - c))
     (signal_from data c)).
Proof.
  intros Hrect Hpast. unfold slice_last_axis, signal_from. split.
  - apply Forall_fmap_ext. eapply Forall_impl; [exact Hrect|].
    intros row Hrow. simpl in *. apply py_slice_past_end_drop. lia.
  - intros Hc. apply Forall_fmap. eapply Forall_impl; [exact Hrect|].
    intros row Hrow. simpl in *. rewrite length_drop.
    destruct (Z.ltb_spec c 0); lia.
Qed.

End WindowFacts.

Section WorkerClaims.
Context `{Samples}.

Lemma readable_session_parses contents chans orig dur tr d1 d2 factor on1 on2 :
  readable_session contents chans orig tr d1 d2 factor on1 on2 →
  ∃ res, parsed_session contents chans orig dur tr res ∧
         res.1 = (cut_trial d1 factor dur <$> on1)
                 ++ (cut_trial d2 factor dur <$> on2).
Proof.
  intros (final & Hb & Ho1 & Ho2 & (c1 & c2 & Hc1 & Hc2 & Hl1 & Hl2) & Hf & Hnz).
  eexists (_, _). split; [|reflexivity].
  exists d1, d2, final, on1, on2, c1, c2, factor. split_and!; done.
Qed.

(** C4.  The two arithmetic steps of the worker, true division of the
    rates and floor division of the onset, give the floor of the raw onset
    divided by the downsample factor, the float [original_rate /
    final_rate], whose value need not be an integer: for a positive factor
    the converted onset is the integer [c] with
    [c * factor <= onset < (c + 1) * factor], and where the float is the
    quotient of the rates exactly it is [(onset * final_rate) div
    original_rate].  Every trial the worker returns is the window that
    starts at the onset converted this way.  At rates 250 and 125 the
    factor is 2 and the onset 6829 converts to 3414; at rates 250 and 100
    the factor is 2.5 and the same onset converts to 2731. *)
Theorem onset_conversion_is_floor :
  (∀ original_rate final_rate factor trial_onset,
     downsample_factor_is original_rate final_rate factor →
     ¬ (factor == 0)%Q →
     (downsample_factor ←! true_div original_rate final_rate;
      floor_div trial_onset downsample_factor)
       = Ok (Qfloor (inject_Z trial_onset / factor))) ∧
  (∀ factor trial_onset,
     (0 < factor)%Q →
     let c := Qfloor (inject_Z trial_onset / factor) in
     (inject_Z c * factor <= inject_Z trial_onset)%Q ∧
     (inject_Z trial_onset < inject_Z (c + 1) * factor)%Q) ∧
  (∀ original_rate final_rate factor trial_onset,
     0 < original_rate → 0 < final_rate →
     (factor == inject_Z original_rate / inject_Z final_rate)%Q →
     Qfloor (inject_Z trial_onset / factor)
       = (trial_onset * final_rate) `div` original_rate) ∧
  (∀ mats file chans orig dur tr trials labels,
     load_trials_one_session mats file chans orig dur tr = Ok (trials, labels) →
     ∃ contents data1 data2 final factor onsets1 onsets2,
       mats !! file = Some contents ∧
       session_blocks contents chans orig tr = Ok (data1, data2, final) ∧
       trigger_positions contents !! 0%nat = Some onsets1 ∧
       trigger_positions contents !! 1%nat = Some onsets2 ∧
       downsample_factor_is orig final factor ∧
       trials =
         ((λ onset,
             let c := Qfloor (inject_Z onset / factor) in
             slice_last_axis data1 c (c + dur)) <$> onsets1)
         ++ ((λ onset,
                let c := Qfloor (inject_Z onset / factor) in
                slice_last_axis data2 c (c + dur)) <$> onsets2)) ∧
  (∃ factor, downsample_factor_is 250 125 factor ∧ (factor == 2)%Q) ∧
  (downsample_factor ←! true_div 250 125; floor_div 6829 downsample_factor)
    = Ok 3414 ∧
  (∃ factor, downsample_factor_is 250 100 factor ∧ (factor == 5 # 2)%Q) ∧
  (downsample_factor ←! true_div 250 100; floor_div 6829 downsample_factor)
    = Ok 2731.
Proof.
  split_and!.
  - intros. by apply worker_conversion.
  - intros factor onset Hpos c. by apply converted_onset_bounds.
  - intros. by apply converted_onset_exact.
  - intros mats file chans orig dur tr trials labels Hrun.
    apply load_trials_one_session_Ok in Hrun as (contents & Hc & Hp).
    destruct Hp as (d1 & d2 & fr & on1 & on2 & c1 & c2 & f & Hb & Ho1 & Ho2 &
                    _ & _ & Hf & _ & _ & _ & Ht & _).
    exists contents, d1, d2, fr, f, on1, on2. split_and!; done.
  - apply downsample_factor_250_125.
  - vm_compute. reflexivity.
  - apply downsample_factor_250_100.
  - vm_compute. reflexivity.
Qed.

(** The trial of a trigger whose window runs past the end of a signal of
    [T] samples per channel: it is what is left of the signal from the
    converted onset on, with all the channels; from an onset that is not
    negative that is [T - c] samples, or none when the onset is past the
    end; and it is shorter than a positive [trial_duration_samples]. *)
Lemma past_end_trial (data : matrix sample) T c dur :
  Forall (λ row, length row = T) data →
  Z.of_nat T < c + dur →
  slice_last_axis data c (c + dur) = signal_from data c ∧
  length (signal_from data c) = length data ∧
  (0 ≤ c →
   Forall (λ row, Z.of_nat (length row) = Z.max 0 (Z.of_nat T - c))
     (signal_from data c)) ∧
  (0 < dur →
   Forall (λ row, Z.of_nat (length row) < dur) (signal_from data c)).
Proof.
  intros Hrect Hpast.
  destruct (window_past_end_rest data T c dur Hrect Hpast) as [Heq Hwidth].
  split; [done|]. rewrite <- Heq.
  split; [apply slice_last_axis_length|]. split; [by rewrite Heq|].
  intros Hdur. by apply (window_past_end data T).
Qed.

(** C9, as amended.  In a session file that can be read at all, a trigger
    whose converted onset plus [trial_duration_samples] exceeds the length
    of the signal raises nothing: the worker returns one trial per
    trigger, and the trial of that trigger is what is left of the signal
    from the converted onset on, with all its channels.  For a positive
    [trial_duration_samples] it has fewer samples than that. *)
Theorem window_past_end_is_truncated mats file contents chans orig dur tr
    data1 data2 factor onsets1 onsets2 :
  mats !! file = Some contents →
  readable_session contents chans orig tr data1 data2 factor onsets1 onsets2 →
  ∃ trials labels,
    load_trials_one_session mats file chans orig dur tr = Ok (trials, labels) ∧
    length trials = (length onsets1 + length onsets2)%nat ∧
    (∀ (k : nat) onset T,
       onsets1 !! k = Some onset →
       Forall (λ row, length row = T) data1 →
       let c := converted_onset factor onset in
       Z.of_nat T < c + dur →
       trials !! k = Some (signal_from data1 c) ∧
       length (signal_from data1 c) = length data1 ∧
       (0 ≤ c →
        Forall (λ row, Z.of_nat (length row) = Z.max 0 (Z.of_nat T - c))
          (signal_from data1 c)) ∧
       (0 < dur →
        Forall (λ row, Z.of_nat (length row) < dur) (signal_from data1 c))) ∧
    (∀ (k : nat) onset T,
       onsets2 !! k = Some onset →
       Forall (λ row, length row = T) data2 →
       let c := converted_onset factor onset in
       Z.of_nat T < c + dur →
       trials !! (length onsets1 + k)%nat = Some (signal_from data2 c) ∧
       length (signal_from data2 c) = length data2 ∧
       (0 ≤ c →
        Forall (λ row, Z.of_nat (length row) = Z.max 0 (Z.of_nat T - c))
          (signal_from data2 c)) ∧
       (0 < dur →
        Forall (λ row, Z.of_nat (length row) < dur) (signal_from data2 c))).
Proof.
  intros Hfile Hread.
  destruct (readable_session_parses _ _ _ dur _ _ _ _ _ _ Hread)
    as ([trials labels] & Hp & Htrials).
  exists trials, labels. simpl in Htrials. split.
  { apply load_trials_one_session_Ok. by exists contents. }
  split; [by rewrite Htrials, length_app, !length_fmap|]. split.
  - intros k onset T Hk Hrect c Hpast.
    destruct (past_end_trial data1 T c dur Hrect Hpast) as (Heq & Hrest).
    split; [|exact Hrest]. rewrite <- Heq.
    rewrite Htrials, lookup_app_l by (rewrite length_fmap; by eapply lookup_lt_Some).
    by rewrite list_lookup_fmap, Hk.
  - intros k onset T Hk Hrect c Hpast.
    destruct (past_end_trial data2 T c dur Hrect Hpast) as (Heq & Hrest).
    split; [|exact Hrest]. rewrite <- Heq.
    rewrite Htrials, lookup_app_r by (rewrite length_fmap; lia).
    rewrite length_fmap, Nat.add_comm, Nat.add_sub.
    by rewrite list_lookup_fmap, Hk.
Qed.

(** The labels the worker returns: for each block the codes of its
    triggers, minus one, block 1 first. *)
Lemma worker_labels mats file chans orig dur tr trials labels :
  load_trials_one_session mats file chans orig dur tr = Ok (trials, labels) →
  ∃ contents onsets1 onsets2 codes1 codes2,
    mats !! file = Some contents ∧
    trigger_positions contents !! 0%nat = Some onsets1 ∧
    trigger_positions contents !! 1%nat = Some onsets2 ∧
    class_labels contents !! 0%nat = Some codes1 ∧
    class_labels contents !! 1%nat = Some codes2 ∧
    labels = (λ code, code - 1)
             <$> (take (length onsets1) codes1 ++ take (length onsets2) codes2).
Proof.
  intros (contents & Hc & Hp)%load_trials_one_session_Ok.
  destruct Hp as (d1 & d2 & fr & on1 & on2 & c1 & c2 & f & _ & Ho1 & Ho2 &
                  Hc1 & Hc2 & _ & _ & _ & _ & _ & Hl).
  exists contents, on1, on2, c1, c2. split_and!; try done.
  simpl in Hl. by rewrite fmap_app.
Qed.

Lemma worker_labels_binary mats file chans orig dur tr trials labels :
  (∀ contents, mats !! file = Some contents →
     Forall (Forall (λ code, code = 1 ∨ code = 2)) (class_labels contents)) →
  load_trials_one_session mats file chans orig dur tr = Ok (trials, labels) →
  Forall (λ label, label = 0 ∨ label = 1) labels.
Proof.
  intros Hcodes (contents & on1 & on2 & c1 & c2 & Hc & _ & _ & Hc1 & Hc2 & ->)
    %worker_labels.
  specialize (Hcodes _ Hc). rewrite Forall_lookup in Hcodes.
  apply Forall_fmap, Forall_app. split.
  - apply Forall_take. eapply Forall_impl; [exact (Hcodes _ _ Hc1)|].
    simpl. lia.
  - apply Forall_take. eapply Forall_impl; [exact (Hcodes _ _ Hc2)|].
    simpl. lia.
Qed.

End WorkerClaims.

Section LabelClaims.
Context `{Samples}.

(** C3.  When every raw class label in the session files is 1 or 2, the
    labels the worker returns are the raw codes of the triggers minus
    one, hence 0 or 1; and in the label vector of the extraction every
    position the loop has filled holds 0 or 1, which is the whole vector
    when the cursor has reached [n_trials]. *)
Theorem labels_are_codes_minus_one self mats :
  (∀ file contents, mats !! file = Some contents →
     Forall (Forall (λ code, code = 1 ∨ code = 2)) (class_labels contents)) →
  (∀ file trials labels,
     worker_fn self mats file = Ok (trials, labels) →
     (∃ contents onsets1 onsets2 codes1 codes2,
        mats !! file = Some contents ∧
        trigger_positions contents !! 0%nat = Some onsets1 ∧
        trigger_positions contents !! 1%nat = Some onsets2 ∧
        class_labels contents !! 0%nat = Some codes1 ∧
        class_labels contents !! 1%nat = Some codes2 ∧
        labels = (λ code, code - 1)
                 <$> (take (length onsets1) codes1
                      ++ take (length onsets2) codes2)) ∧
     Forall (λ label, label = 0 ∨ label = 1) labels) ∧
  (∀ data labels cursor,
     extract_parallel self mats (Ok (data, labels, cursor)) →
     Forall (λ label, label = 0 ∨ label = 1) (take (Z.to_nat cursor) labels) ∧
     (cursor = n_trials self → Forall (λ label, label = 0 ∨ label = 1) labels)).
Proof.
  intros Hcodes. split.
  - intros file trials labels Hrun. split; [by eapply worker_labels|].
    eapply worker_labels_binary; [|exact Hrun]. intros contents. apply Hcodes.
  - intros data labels cursor Hrun.
    apply (proj1 (extract_parallel_iff self mats _)) in Hrun. symmetry in Hrun.
    apply extract_sequential_Ok in Hrun
      as (files & sessions & _ & Hs & Hn & Hd & Hl & -> & Hlen & _ & Hlabels).
    assert (Forall (λ label, label = 0 ∨ label = 1) (concat (snd <$> sessions)))
      as Hall.
    { apply Forall_concat, Forall_fmap. clear Hlabels Hlen.
      induction Hs as [|file [trials lbls] files sessions Hw _ IH];
        constructor; [|exact IH].
      simpl. eapply worker_labels_binary; [|exact Hw].
      intros contents. apply Hcodes. }
    assert (Forall (λ label, label = 0 ∨ label = 1)
              (take (Z.to_nat (Z.of_nat (length (concat (fst <$> sessions)))))
                 labels)) as Hfilled.
    { rewrite Nat2Z.id, <- Hlen, <- Hlabels. by apply Forall_take. }
    split; [exact Hfilled|]. intros Hfull.
    rewrite Hfull, take_ge in Hfilled by lia. exact Hfilled.
Qed.

End LabelClaims.

(** * Channels and shapes *)

Lemma default_channels_range : Forall (λ ch, 0 ≤ ch < 64) default_channels.
Proof. apply (bool_decide_unpack _). vm_compute. exact I. Qed.

Lemma take_rows_Forall2 {A} (m : matrix A) idx rows :
  Forall (λ i, 0 ≤ i) idx →
  take_rows m idx = Ok rows →
  Forall2 (λ i row, m !! Z.to_nat i = Some row) idx rows.
Proof.
  intros Hidx Hrows%rmapM_Forall2. revert Hidx.
  induction Hrows as [|i row idx rows Hi _ IH]; intros Hidx; [constructor|].
  apply Forall_cons in Hidx as [Hi0 Hidx].
  constructor; [|by apply IH].
  rewrite py_index_nonneg in Hi by done. by apply of_option_Ok in Hi.
Qed.

Lemma take_rows_total {A} (m : matrix A) idx :
  Forall (λ i, 0 ≤ i < Z.of_nat (length m)) idx →
  ∃ rows, take_rows m idx = Ok rows.
Proof.
  induction 1 as [|i idx Hi _ [rows IH]]; [by exists []|].
  destruct (lookup_lt_is_Some_2 m (Z.to_nat i)) as [row Hrow]; [lia|].
  exists (row :: rows). unfold take_rows in *. simpl.
  rewrite py_index_nonneg, Hrow by lia. simpl. by rewrite IH.
Qed.

Section ShapeClaims.
Context `{Samples}.

(** What [__init__] builds without a transform. *)
Lemma init_no_transform dir ms dl vs vb fe :
  init dir ms None dl vs vb fe =
    (duration ←! duration_in_samples ms 250;
     Ok {| dir := path_join dir "thu";
           trial_duration_ms := ms;
           transform := None;
           download := dl;
           verbose := vb;
           verify_sha256 := vs;
           n_trials := 1024000;
           original_sample_rate_hz := 250;
           channels_to_use := default_channels;
           n_channels := 62;
           force_extract := fe;
           final_sample_rate_hz := 250;
           output_shape := (62, duration);
           trial_duration_samples := duration |}).
Proof.
  cbv beta zeta delta [init].
  by destruct (duration_in_samples ms 250).
Qed.

(** Half a second at 250 Hz: [0.5 * 250.0] is [125.0]. *)
Lemma duration_500_at_250 : duration_in_samples 500 250 = Ok 125.
Proof. vm_compute. reflexivity. Qed.

(** Without a transform the factor is [250 / 250], the float [1.0]. *)
Lemma downsample_factor_same_rate factor :
  downsample_factor_is 250 250 factor → (factor == 1)%Q.
Proof.
  intros (q & Hq & Hf). vm_compute in Hq. injection Hq as <-.
  by injection Hf as <-.
Qed.

(** What every dataset object has, transform or not. *)
Lemma init_constants dir ms tr dl vs vb fe self :
  init dir ms tr dl vs vb fe = Ok self →
  n_trials self = 1024000 ∧
  original_sample_rate_hz self = 250 ∧
  channels_to_use self = default_channels ∧
  n_channels self = 62 ∧
  transform self = tr ∧
  trial_duration_samples self = (output_shape self).2 ∧
  0 ≤ (output_shape self).1.
Proof.
  unfold init. intros Hinit. inv_bind Hinit. destruct a as [final shp].
  injection Hinit as <-. simpl. split_and!; try done.
  destruct tr as [f|].
  - inv_bind Hbind. destruct a1 as [out rate]. injection Hbind as _ <-.
    simpl. lia.
  - inv_bind Hbind. injection Hbind as _ <-. simpl. lia.
Qed.

(** The blocks the worker slices are the transform of the selected rows
    of the raw blocks. *)
Lemma session_blocks_rows contents orig tr data1 data2 final :
  session_blocks contents default_channels orig tr = Ok (data1, data2, final) →
  ∃ rows1 rows2,
    Forall2 (λ ch row, EEGdata1 contents !! Z.to_nat ch = Some row)
      default_channels rows1 ∧
    Forall2 (λ ch row, EEGdata2 contents !! Z.to_nat ch = Some row)
      default_channels rows2 ∧
    match tr with
    | None =>
        data1 = (fmap (M:=list) astype_float32 <$> rows1) ∧
        data2 = (fmap (M:=list) astype_float32 <$> rows2) ∧
        final = orig
    | Some f =>
        ∃ rate1,
          f (fmap (M:=list) astype_float32 <$> rows1) orig = Ok (data1, rate1) ∧
          f (fmap (M:=list) astype_float32 <$> rows2) orig = Ok (data2, final)
    end.
Proof.
  intros Hb. unfold session_blocks in Hb. inv_bind Hb.
  assert (Forall (λ i, 0 ≤ i) default_channels) as Hnn.
  { eapply Forall_impl; [apply default_channels_range|]. simpl. lia. }
  apply take_rows_Forall2 in Hbind; [|done].
  apply take_rows_Forall2 in Hbind0; [|done].
  exists a, a0. split; [done|]. split; [done|].
  destruct tr as [f|].
  - inv_bind Hb. destruct a1 as [d1 r1]. inv_bind Hb. destruct a1 as [d2 r2].
    injection Hb as <- <- <-. by exists r1.
  - by injection Hb as <- <- <-.
Qed.

(** Selected and cast rows of a block whose rows all have [T] samples. *)
Lemma selected_rows_rect (m : matrix raw) rows T :
  Forall2 (λ ch row, m !! Z.to_nat ch = Some row) default_channels rows →
  Forall (λ row, length row = T) m →
  length (fmap (M:=list) astype_float32 <$> rows) = 62%nat ∧
  Forall (λ row, length row = T) (fmap (M:=list) astype_float32 <$> rows).
Proof.
  intros Hrows Hrect. split.
  - rewrite length_fmap. by apply Forall2_length in Hrows as <-.
  - apply Forall_fmap. clear -Hrows Hrect.
    induction Hrows as [|ch row chs rows Hrow _ IH]; constructor; [|exact IH].
    simpl. rewrite length_fmap.
    rewrite Forall_lookup in Hrect. by eapply Hrect.
Qed.

(** C8.  The channel selection is the ascending list of the 64 channel
    indices without 32 and 42; [__init__] always stores it, and the worker
    of every session receives it; the blocks that the worker transforms
    and slices are, for block 1 and for block 2 alike, the rows of the raw
    block at exactly these indices, in this order. *)
Theorem channel_selection_fixed :
  default_channels = filter (λ ch, ch ≠ 32 ∧ ch ≠ 42) (seqZ 0 64) ∧
  length default_channels = 62%nat ∧
  (∀ dir ms tr dl vs vb fe self,
     init dir ms tr dl vs vb fe = Ok self →
     channels_to_use self = default_channels) ∧
  (∀ self mats file,
     worker_fn self mats file =
       load_trials_one_session mats file (channels_to_use self)
         (original_sample_rate_hz self) (trial_duration_samples self)
         (transform self)) ∧
  (∀ contents orig tr data1 data2 final,
     session_blocks contents default_channels orig tr = Ok (data1, data2, final) →
     ∃ rows1 rows2,
       Forall2 (λ ch row, EEGdata1 contents !! Z.to_nat ch = Some row)
         default_channels rows1 ∧
       Forall2 (λ ch row, EEGdata2 contents !! Z.to_nat ch = Some row)
         default_channels rows2 ∧
       match tr with
       | None =>
           data1 = (fmap (M:=list) astype_float32 <$> rows1) ∧
           data2 = (fmap (M:=list) astype_float32 <$> rows2) ∧
           final = orig
       | Some f =>
           ∃ rate1,
             f (fmap (M:=list) astype_float32 <$> rows1) orig = Ok (data1, rate1) ∧
             f (fmap (M:=list) astype_float32 <$> rows2) orig = Ok (data2, final)
       end) ∧
  (∀ contents orig,
     (64 ≤ length (EEGdata1 contents))%nat →
     (64 ≤ length (EEGdata2 contents))%nat →
     ∃ data1 data2,
       session_blocks contents default_channels orig None = Ok (data1, data2, orig)).
Proof.
  split_and!.
  - reflexivity.
  - reflexivity.
  - intros dir ms tr dl vs vb fe self Hinit.
    by apply init_constants in Hinit as (_ & _ & ? & _).
  - reflexivity.
  - apply session_blocks_rows.
  - intros contents orig Hl1 Hl2. unfold session_blocks.
    destruct (take_rows_total (EEGdata1 contents) default_channels) as [rows1 ->].
    { eapply Forall_impl; [apply default_channels_range|]. simpl. lia. }
    destruct (take_rows_total (EEGdata2 contents) default_channels) as [rows2 ->].
    { eapply Forall_impl; [apply default_channels_range|]. simpl. lia. }
    simpl. eauto.
Qed.

(** C7 (amended).  With [trial_duration_ms = 500], the original rate of
    250 Hz and no transform, [trial_duration_samples] is 125 and the shape
    of a tensor row is (62, 125): 64 raw channels minus the 2 excluded.
    Every trial the worker returns has 62 channels, and every trial whose
    window lies inside its block has shape (62, 125). *)
Theorem no_transform_trial_shape dir dl vs vb fe self :
  init dir 500 None dl vs vb fe = Ok self →
  trial_duration_samples self = 125 ∧
  output_shape self = (62, 125) ∧
  n_channels self = 64 - 2 ∧
  ∀ mats file trials labels,
    worker_fn self mats file = Ok (trials, labels) →
    ∃ contents onsets1 onsets2,
      mats !! file = Some contents ∧
      trigger_positions contents !! 0%nat = Some onsets1 ∧
      trigger_positions contents !! 1%nat = Some onsets2 ∧
      length trials = (length onsets1 + length onsets2)%nat ∧
      Forall (λ t, length t = 62%nat) trials ∧
      (∀ (k : nat) onset T,
         onsets1 !! k = Some onset →
         Forall (λ row, length row = T) (EEGdata1 contents) →
         0 ≤ onset → onset + 125 ≤ Z.of_nat T →
         ∃ t, trials !! k = Some t ∧ has_shape 62 125 t) ∧
      (∀ (k : nat) onset T,
         onsets2 !! k = Some onset →
         Forall (λ row, length row = T) (EEGdata2 contents) →
         0 ≤ onset → onset + 125 ≤ Z.of_nat T →
         ∃ t, trials !! (length onsets1 + k)%nat = Some t ∧ has_shape 62 125 t).
Proof.
  rewrite init_no_transform, duration_500_at_250. intros [= <-]. simpl.
  split; [done|]. split; [done|]. split; [done|].
  intros mats file trials labels Hrun. unfold worker_fn in Hrun. simpl in Hrun.
  apply load_trials_one_session_Ok in Hrun as (contents & Hc & Hp).
  destruct Hp as (d1 & d2 & fr & on1 & on2 & c1 & c2 & f & Hb & Ho1 & Ho2 & _ &
                  _ & Hf & _ & _ & _ & Ht & _).
  simpl in Ht.
  apply session_blocks_rows in Hb as (rows1 & rows2 & Hr1 & Hr2 & -> & -> & ->).
  apply downsample_factor_same_rate in Hf.
  assert (length (fmap (M:=list) astype_float32 <$> rows1) = 62%nat) as Hlen1.
  { rewrite length_fmap. by apply Forall2_length in Hr1 as <-. }
  assert (length (fmap (M:=list) astype_float32 <$> rows2) = 62%nat) as Hlen2.
  { rewrite length_fmap. by apply Forall2_length in Hr2 as <-. }
  exists contents, on1, on2. split_and!; try done.
  - by rewrite Ht, length_app, !length_fmap.
  - rewrite Ht. apply Forall_app.
    split; apply Forall_fmap, Forall_true; intros onset; simpl;
      unfold cut_trial; by rewrite slice_last_axis_length.
  - intros k onset T Hk Hrect Hon Hfit.
    destruct (selected_rows_rect _ _ _ Hr1 Hrect) as [_ Hrect'].
    exists (cut_trial (fmap (M:=list) astype_float32 <$> rows1) f 125 onset).
    split.
    + rewrite Ht, lookup_app_l by (rewrite length_fmap; by eapply lookup_lt_Some).
      by rewrite list_lookup_fmap, Hk.
    + unfold cut_trial. rewrite converted_onset_one by done.
      rewrite <- Hlen1 at 1. by apply (window_inside _ T).
  - intros k onset T Hk Hrect Hon Hfit.
    destruct (selected_rows_rect _ _ _ Hr2 Hrect) as [_ Hrect'].
    exists (cut_trial (fmap (M:=list) astype_float32 <$> rows2) f 125 onset).
    split.
    + rewrite Ht, lookup_app_r by (rewrite length_fmap; lia).
      rewrite length_fmap, Nat.add_comm, Nat.add_sub.
      by rewrite list_lookup_fmap, Hk.
    + unfold cut_trial. rewrite converted_onset_one by done.
      rewrite <- Hlen2 at 1. by apply (window_inside _ T).
Qed.

End ShapeClaims.

(** * Counting the rows *)

Lemma length_concat_const {A} (ls : list (list A)) n :
  Forall (λ l, Z.of_nat (length l) = n) ls →
  Z.of_nat (length (concat ls)) = Z.of_nat (length ls) * n.
Proof.
  induction 1 as [|l ls Hl _ IH]; simpl; [lia|].
  rewrite length_app. lia.
Qed.

Lemma forallb_Forall_true {A} (f : A → bool) l :
  Forall (λ x, f x = true) l → forallb f l = true.
Proof. induction 1 as [|x l Hx _ IH]; simpl; [done|]. by rewrite Hx, IH. Qed.

Lemma rfoldM_cons {A C} (body : C → A → result C) c a l :
  rfoldM body c (a :: l) = (c' ←! body c a; rfoldM body c' l).
Proof. reflexivity. Qed.

Lemma broadcast_axis_Ok {A} n (l : list A) : length l = n → broadcast_axis n l = Ok l.
Proof. intros <-. apply broadcast_axis_same. Qed.

Section CountFacts.
Context `{Samples}.

Lemma mat_files_total self :
  ∃ files, mat_files self = Ok files ∧ length files = 128%nat.
Proof. eexists. split; [vm_compute; reflexivity|reflexivity]. Qed.

Lemma broadcast_trial_same C W t :
  has_shape C W t → broadcast_trial C W t = Ok t.
Proof.
  intros [Hrows Hcols]. unfold broadcast_trial.
  rewrite (rmapM_Ok _ id).
  - simpl. rewrite list_fmap_id. by apply broadcast_axis_Ok.
  - intros row Hrow. rewrite Forall_forall in Hcols. by apply broadcast_axis_Ok, Hcols.
Qed.

Lemma has_shape_shape C W t :
  has_shape C W t → rectangular t = true ∧
  shape t = (Z.of_nat C, Z.of_nat (if decide (C = 0%nat) then 0%nat else W)).
Proof.
  intros [Hrows Hcols]. destruct t as [|row t].
  { simpl in *. subst C. done. }
  apply Forall_cons in Hcols as Hc. destruct Hc as [Hrow Hcols'].
  split.
  - unfold rectangular, width. apply forallb_Forall_true.
    eapply Forall_impl; [exact Hcols|]. intros r Hr. simpl in *.
    apply bool_decide_eq_true. congruence.
  - unfold shape, width. simpl in *. rewrite Hrow.
    rewrite decide_False by lia. by rewrite <- Hrows.
Qed.

Lemma stack_shape_same C W values :
  Forall (has_shape C W) values → values ≠ [] →
  ∃ shp, stack_shape values = Ok (Some shp).
Proof.
  intros Hvalues Hne. destruct values as [|t values]; [done|].
  unfold stack_shape. eexists.
  rewrite forallb_Forall_true; [done|].
  apply Forall_cons in Hvalues as Ht. destruct Ht as [Ht _].
  apply has_shape_shape in Ht as [_ Hshape].
  eapply Forall_impl; [exact Hvalues|]. intros t' [Hrect Hshape']%has_shape_shape.
  simpl. rewrite Hrect. simpl. apply bool_decide_eq_true. congruence.
Qed.

(** A session whose trials all have the shape of a tensor row, stored
    where there is room for it. *)
Lemma store_session_fits self data labels cursor values lbls :
  Forall (has_shape (Z.to_nat (output_shape self).1)
            (Z.to_nat (output_shape self).2)) values →
  values ≠ [] →
  length values = length lbls →
  length labels = length data →
  0 ≤ cursor →
  cursor + Z.of_nat (length values) ≤ Z.of_nat (length data) →
  ∃ data' labels',
    store_session self (data, labels, cursor) (values, lbls)
      = Ok (data', labels', cursor + Z.of_nat (length values)) ∧
    length data' = length data ∧ length labels' = length labels.
Proof.
  intros Hshapes Hne Hlen Hlabels Hc Hfit. unfold store_session, assign_trials.
  destruct (stack_shape_same _ _ _ Hshapes Hne) as [shp ->]. simpl.
  rewrite (rmapM_Ok _ id); cycle 1.
  { intros t Ht. rewrite Forall_forall in Hshapes.
    by apply broadcast_trial_same, Hshapes. }
  simpl. rewrite list_fmap_id.
  assert (∀ {A} (dest vals : list A),
    cursor + Z.of_nat (length vals) ≤ Z.of_nat (length dest) →
    ∃ dest', assign_slice dest cursor (cursor + Z.of_nat (length vals)) vals
               = Ok dest' ∧ length dest' = length dest) as Hassign.
  { intros A dest vals Hroom. unfold assign_slice, slice_bound. cbv zeta.
    destruct (Z.ltb_spec cursor 0); [lia|].
    destruct (Z.ltb_spec (cursor + Z.of_nat (length vals)) 0); [lia|].
    rewrite !Z.min_l by lia.
    rewrite broadcast_axis_Ok by lia. simpl. eexists. split; [done|].
    rewrite !length_app, length_take, length_drop. lia. }
  destruct (Hassign _ data values) as (data' & -> & Hd'); [done|].
  rewrite <- Hlen.
  destruct (Hassign _ labels lbls) as (labels' & Hl & Hl'); [lia|].
  rewrite <- Hlen in Hl. rewrite Hl. simpl. by exists data', labels'.
Qed.

Lemma fold_store_fits self sessions data labels cursor n :
  Forall (λ s : list trial * list Z,
            Forall (has_shape (Z.to_nat (output_shape self).1)
                      (Z.to_nat (output_shape self).2)) s.1 ∧
            Z.of_nat (length s.1) = n ∧ Z.of_nat (length s.2) = n) sessions →
  0 < n →
  length labels = length data →
  0 ≤ cursor →
  cursor + Z.of_nat (length sessions) * n ≤ Z.of_nat (length data) →
  ∃ data' labels',
    rfoldM (store_session self) (data, labels, cursor) sessions
      = Ok (data', labels', cursor + Z.of_nat (length sessions) * n).
Proof.
  intros Hs Hn. revert data labels cursor.
  induction Hs as [|[values lbls] sessions (Hshapes & Hv & Hl) _ IH];
    intros data labels cursor Hlabels Hc Hfit.
  { exists data, labels. simpl. by rewrite Z.add_0_r. }
  simpl in Hshapes, Hv, Hl. rewrite length_cons in *. rewrite rfoldM_cons.
  destruct (store_session_fits self data labels cursor values lbls)
    as (data' & labels' & -> & Hd' & Hl'); [done| |lia|done|done|lia|].
  { intros ->. simpl in Hv. lia. }
  simpl. rewrite Hv.
  destruct (IH data' labels' (cursor + n)) as (data'' & labels'' & ->);
    [lia|lia|lia|].
  exists data'', labels''. do 2 f_equal. lia.
Qed.

End CountFacts.

Section CountClaims.
Context `{Samples}.

Lemma np_full_nonneg {A} (x : A) n :
  0 ≤ n → np_full x n = Ok (replicate (Z.to_nat n) x).
Proof. intros Hn. unfold np_full. by destruct (Z.ltb_spec n 0); [lia|]. Qed.

Lemma extract_setup_total self files :
  mat_files self = Ok files →
  0 ≤ n_trials self → 0 ≤ (output_shape self).1 → 0 ≤ (output_shape self).2 →
  extract_setup self =
    Ok (files,
        (replicate (Z.to_nat (n_trials self))
           (replicate (Z.to_nat (output_shape self).1)
              (replicate (Z.to_nat (output_shape self).2) uninit)),
         replicate (Z.to_nat (n_trials self)) uninit_label, 0)).
Proof.
  intros Hmf Hn H1 H2. unfold extract_setup, np_empty_data, np_empty_labels.
  rewrite Hmf. cbn [rbind].
  rewrite (np_full_nonneg uninit) by exact H2. cbn [rbind].
  rewrite (np_full_nonneg (replicate _ uninit)) by exact H1. cbn [rbind].
  rewrite (np_full_nonneg (replicate _ (replicate _ uninit))) by exact Hn.
  cbn [rbind]. rewrite (np_full_nonneg uninit_label) by exact Hn. reflexivity.
Qed.

(** With no session file on disk the first worker fails, and the
    extraction with it. *)
Lemma extract_sequential_no_files self :
  0 ≤ n_trials self → 0 ≤ (output_shape self).1 → 0 ≤ (output_shape self).2 →
  extract_sequential self ∅ = Raise FileNotFoundError.
Proof.
  intros Hn H1 H2. destruct (mat_files_total self) as (files & Hfiles & Hlen).
  unfold extract_sequential. rewrite (extract_setup_total self files) by done.
  cbn [rbind]. unfold map_loop. destruct files as [|file files]; [done|].
  rewrite fmap_cons, rfoldM_cons.
  unfold worker_fn at 1, load_trials_one_session, loadmat.
  by rewrite lookup_empty.
Qed.

Lemma trigger_shape_rows contents cols onsets1 onsets2 :
  trigger_shape contents 2 cols →
  trigger_positions contents !! 0%nat = Some onsets1 →
  trigger_positions contents !! 1%nat = Some onsets2 →
  Z.of_nat (length onsets1) = cols ∧ Z.of_nat (length onsets2) = cols.
Proof.
  intros [_ Hrows] H1 H2. rewrite Forall_lookup in Hrows.
  split; by eapply Hrows.
Qed.

Lemma worker_fn_count self mats file contents trials labels cols :
  mats !! file = Some contents →
  trigger_shape contents 2 cols →
  worker_fn self mats file = Ok (trials, labels) →
  Z.of_nat (length trials) = 2 * cols ∧ Z.of_nat (length labels) = 2 * cols.
Proof.
  intros Hc Hshape (contents' & Hc' & Hp)%load_trials_one_session_Ok.
  rewrite Hc in Hc'. injection Hc' as <-.
  apply parsed_session_lengths in Hp as (on1 & on2 & Ho1 & Ho2 & Ht & Hl).
  destruct (trigger_shape_rows _ _ _ _ Hshape Ho1 Ho2) as [<- Hon2].
  simpl in Ht, Hl. lia.
Qed.

Lemma well_formed_session_parses self mats file contents :
  mats !! file = Some contents →
  well_formed_session self contents →
  ∃ trials labels,
    worker_fn self mats file = Ok (trials, labels) ∧
    Forall (has_shape (Z.to_nat (output_shape self).1)
              (Z.to_nat (output_shape self).2)) trials ∧
    Z.of_nat (length trials) = 8000 ∧ Z.of_nat (length labels) = 8000.
Proof.
  intros Hc (d1 & d2 & fr & on1 & on2 & Hread & Hl1 & Hl2 & Hshapes).
  destruct (readable_session_parses _ _ _ (trial_duration_samples self)
              _ _ _ _ _ _ Hread) as ([trials labels] & Hp & Htrials).
  simpl in Htrials. exists trials, labels.
  assert (worker_fn self mats file = Ok (trials, labels)) as Hrun.
  { apply load_trials_one_session_Ok. by exists contents. }
  split; [done|]. split; [by rewrite Htrials|].
  apply parsed_session_lengths in Hp as (on1' & on2' & Ho1 & Ho2 & Ht & Hl).
  destruct Hread as (final & _ & Ho1' & Ho2' & _).
  rewrite Ho1 in Ho1'. rewrite Ho2 in Ho2'.
  injection Ho1' as ->. injection Ho2' as ->. simpl in Ht, Hl. lia.
Qed.

(** C2.  A session file whose trigger matrix has shape (2, 4000) parses
    to exactly 8000 trials and 8000 labels, and a well-formed one does
    parse.  When the 128 session files have that shape, an extraction
    that ends has filled exactly 1,024,000 rows, which is [n_trials] and
    the first dimension of both tensors; and when the files are
    well-formed the extraction does end so. *)
Theorem session_and_dataset_counts dir ms tr dl vs vb fe self mats :
  init dir ms tr dl vs vb fe = Ok self →
  (∀ file contents trials labels,
     mats !! file = Some contents →
     trigger_shape contents 2 4000 →
     worker_fn self mats file = Ok (trials, labels) →
     Z.of_nat (length trials) = 8000 ∧ Z.of_nat (length labels) = 8000) ∧
  (∀ file contents,
     mats !! file = Some contents →
     well_formed_session self contents →
     ∃ trials labels, worker_fn self mats file = Ok (trials, labels)) ∧
  (∀ data labels cursor,
     (∀ files file, mat_files self = Ok files → file ∈ files →
        ∃ contents, mats !! file = Some contents ∧
                    trigger_shape contents 2 4000) →
     extract_parallel self mats (Ok (data, labels, cursor)) →
     cursor = 1024000 ∧ cursor = n_trials self ∧
     Z.of_nat (length data) = 1024000 ∧ Z.of_nat (length labels) = 1024000) ∧
  ((∀ files file, mat_files self = Ok files → file ∈ files →
      ∃ contents, mats !! file = Some contents ∧
                  well_formed_session self contents) →
   0 ≤ (output_shape self).2 →
   ∃ data labels, extract_parallel self mats (Ok (data, labels, 1024000))).
Proof.
  intros Hinit.
  apply init_constants in Hinit as (Hn & Horig & Hch & Hnc & Htr & Hdur & Hrows).
  split_and!.
  - intros file contents trials labels Hc Hshape Hrun.
    by apply (worker_fn_count self mats file contents trials labels 4000).
  - intros file contents Hc Hwf.
    destruct (well_formed_session_parses self mats file contents Hc Hwf)
      as (trials & labels & Hrun & _). eauto.
  - intros data labels cursor Hfiles Hrun.
    apply (proj1 (extract_parallel_iff self mats _)) in Hrun. symmetry in Hrun.
    apply extract_sequential_Ok in Hrun
      as (files & sessions & Hmf & Hs & Hn0 & Hd & Hl & -> & Hlen & _).
    assert (Forall (λ l : list trial, Z.of_nat (length l) = 8000) (fst <$> sessions))
      as Hcounts.
    { apply Forall_fmap.
      pose proof (λ file, Hfiles files file Hmf) as Hall.
      clear Hlen Hmf Hfiles. rename Hall into Hfiles. revert Hfiles.
      induction Hs as [|file [trials lbls] files' sessions Hw _ IH];
        intros Hfiles; constructor.
      - destruct (Hfiles file) as (contents & Hc & Hshape); [left|].
        simpl. by eapply (worker_fn_count self mats file contents trials lbls 4000).
      - apply IH. intros file' Hin. apply Hfiles. by right. }
    apply length_concat_const in Hcounts. rewrite length_fmap in Hcounts.
    apply Forall2_length in Hs.
    destruct (mat_files_total self) as (files' & Hmf' & Hlf).
    rewrite Hmf in Hmf'. injection Hmf' as <-.
    rewrite Hcounts, <- Hs, Hlf, Hd, Hl, Hn. lia.
  - intros Hwf Hw.
    destruct (mat_files_total self) as (files & Hmf & Hlf).
    assert (∃ sessions,
      Forall2 (λ file s, worker_fn self mats file = Ok s) files sessions ∧
      Forall (λ s : list trial * list Z,
                Forall (has_shape (Z.to_nat (output_shape self).1)
                          (Z.to_nat (output_shape self).2)) s.1 ∧
                Z.of_nat (length s.1) = 8000 ∧ Z.of_nat (length s.2) = 8000) sessions)
      as (sessions & Hs & Hnice).
    { pose proof (λ file, Hwf files file Hmf) as Hall.
      clear Hlf Hmf Hwf. rename Hall into Hwf. revert Hwf.
      induction files as [|file files IH]; intros Hwf.
      { exists []. split; constructor. }
      destruct IH as (sessions & Hs & Hnice).
      { intros file' Hin. apply Hwf. by right. }
      destruct (Hwf file) as (contents & Hc & Hwfc); [left|].
      destruct (well_formed_session_parses self mats file contents Hc Hwfc)
        as (trials & labels & Hrun & Hshapes & Ht & Hl).
      exists ((trials, labels) :: sessions). split; constructor; done. }
    apply Forall2_length in Hs as Hls.
    destruct (fold_store_fits self sessions
                (replicate (Z.to_nat (n_trials self))
                   (replicate (Z.to_nat (output_shape self).1)
                      (replicate (Z.to_nat (output_shape self).2) uninit)))
                (replicate (Z.to_nat (n_trials self)) uninit_label) 0 8000)
      as (data & labels & Hfold); [exact Hnice|lia| |lia| |].
    { by rewrite !length_replicate. }
    { rewrite length_replicate. lia. }
    exists data, labels. apply (proj2 (extract_parallel_iff self mats _)).
    symmetry. unfold extract_sequential.
    rewrite (extract_setup_total self files Hmf) by lia.
    cbn [rbind]. unfold map_loop.
    rewrite (rfoldM_values _ _ _ _ _ Hs). etrans; [exact Hfold|].
    do 2 f_equal. lia.
Qed.

End CountClaims.

(** * The theorems at concrete inputs *)

(** The reuse check on [cache_no_data]: both checksum files are read, and
    it is [verify_file] that refuses, on the missing data file. *)
Lemma cache_no_data_readable :
  ¬ @checksum_unreadable echo_hashlib utf8_text int_samples unverified_dataset
      cache_no_data.
Proof.
  intros (ds & ls & Hds & Hls & Hbad).
  vm_compute in Hds. injection Hds as <-.
  vm_compute in Hls. injection Hls as <-.
  destruct Hbad as [Hbad|(d & dt & Hd & _)].
  - vm_compute in Hbad. discriminate Hbad.
  - vm_compute in Hd. discriminate Hd.
Defined.

Lemma missing_array_blocks_reuse_witness :
  verify_sha256 unverified_dataset = false ∧
  cache_no_data !! @trial_data_path int_samples unverified_dataset = None ∧
  @read_text utf8_text cache_no_data
     (@trial_data_sha256_path int_samples unverified_dataset) = Ok "00" ∧
  @verify_file echo_hashlib cache_no_data
     (@trial_data_path int_samples unverified_dataset) "00" false
     DEFAULT_CHUNKSIZE = Ok false ∧
  @can_reuse echo_hashlib utf8_text int_samples unverified_dataset cache_no_data
    = Ok false.
Proof.
  split; [reflexivity|]. split; [vm_compute; reflexivity|].
  split; [vm_compute; reflexivity|].
  destruct (@missing_array_blocks_reuse echo_hashlib utf8_text int_samples
              null_npy unverified_dataset cache_no_data eq_refl)
    as (Hverify & _ & Hmiss).
  split; [apply Hverify; vm_compute; reflexivity|].
  destruct Hmiss as (_ & _ & _ & Hrebuild); [left; vm_compute; reflexivity|].
  exact (proj1 (Hrebuild cache_no_data_readable)).
Defined.

(** C5, as stated, fails: with the force-extract flag off, verification
    disabled and all four files there, the cached pair is not reused when
    the checksum files are no text.  The check raises, and
    [_extract_trials] with it. *)
Lemma undecodable_checksum_is_no_reuse :
  force_extract unverified_dataset = false ∧
  verify_sha256 unverified_dataset = false ∧
  @cache_entry_valid echo_hashlib int_samples unverified_dataset garbled_cache ∧
  @reuse_cache echo_hashlib utf8_text int_samples unverified_dataset
     garbled_cache = Raise UnicodeDecodeError ∧
  ¬ (@reuse_cache echo_hashlib utf8_text int_samples unverified_dataset
       garbled_cache = Ok true ↔
     force_extract unverified_dataset = false ∧
     @cache_entry_valid echo_hashlib int_samples unverified_dataset
       garbled_cache) ∧
  (∀ mats out,
     @extract_trials echo_hashlib utf8_text int_samples null_npy
       unverified_dataset garbled_cache mats out ↔
     out = Raise UnicodeDecodeError).
Proof.
  assert (@cache_entry_valid echo_hashlib int_samples unverified_dataset
            garbled_cache) as Hvalid.
  { exists [], [], [Byte.xff], [Byte.xff].
    split; [vm_compute; reflexivity|]. split; [vm_compute; reflexivity|].
    split; [vm_compute; reflexivity|]. split; [vm_compute; reflexivity|].
    intros Hv. discriminate Hv. }
  assert (@reuse_cache echo_hashlib utf8_text int_samples unverified_dataset
            garbled_cache = Raise UnicodeDecodeError) as Hraise
    by (vm_compute; reflexivity).
  split; [reflexivity|]. split; [reflexivity|]. split; [exact Hvalid|].
  split; [exact Hraise|]. split.
  - intros [_ Hreuse]. rewrite Hraise in Hreuse.
    discriminate Hreuse. by split.
  - intros mats out. unfold extract_trials. rewrite Hraise. reflexivity.
Qed.

(** C10, as stated, fails: with verification disabled and the data file
    missing, no rebuild is triggered when the checksum files are no text.
    The check raises before [verify_file] is called, and what
    [_extract_trials] does is not what a rebuild does. *)
Lemma missing_data_file_without_rebuild :
  verify_sha256 unverified_dataset = false ∧
  garbled_cache_no_data !! @trial_data_path int_samples unverified_dataset
    = None ∧
  @can_reuse echo_hashlib utf8_text int_samples unverified_dataset
     garbled_cache_no_data = Raise UnicodeDecodeError ∧
  (∀ mats out,
     @extract_trials echo_hashlib utf8_text int_samples null_npy
       unverified_dataset garbled_cache_no_data mats out ↔
     out = Raise UnicodeDecodeError) ∧
  @rebuilt_arrays echo_hashlib utf8_text int_samples null_npy
     unverified_dataset garbled_cache_no_data ∅ (Raise FileNotFoundError) ∧
  ¬ @extract_trials echo_hashlib utf8_text int_samples null_npy
      unverified_dataset garbled_cache_no_data ∅ (Raise FileNotFoundError).
Proof.
  assert (@reuse_cache echo_hashlib utf8_text int_samples unverified_dataset
            garbled_cache_no_data = Raise UnicodeDecodeError) as Hraise
    by (vm_compute; reflexivity).
  split; [reflexivity|]. split; [vm_compute; reflexivity|].
  split; [vm_compute; reflexivity|]. split; [|split].
  - intros mats out. unfold extract_trials. rewrite Hraise. reflexivity.
  - exists (Raise FileNotFoundError). split; [|reflexivity].
    apply extract_parallel_iff. symmetry.
    apply extract_sequential_no_files; simpl; lia.
  - unfold extract_trials. rewrite Hraise. discriminate.
Qed.

Lemma small_store_codes file (contents : @mat_contents int_samples) :
  small_store !! file = Some contents →
  Forall (Forall (λ code, code = 1 ∨ code = 2)) (class_labels contents).
Proof.
  unfold small_store. intros [_ <-]%lookup_singleton_Some.
  apply (bool_decide_unpack _). vm_compute. exact I.
Defined.

Lemma labels_are_codes_minus_one_witness :
  (∀ file contents, small_store !! file = Some contents →
     Forall (Forall (λ code, code = 1 ∨ code = 2)) (class_labels contents)) ∧
  (∀ file trials labels,
     worker_fn plain_dataset small_store file = Ok (trials, labels) →
     Forall (λ label, label = 0 ∨ label = 1) labels).
Proof.
  split; [exact small_store_codes|].
  intros file trials labels Hrun.
  destruct (@labels_are_codes_minus_one int_samples plain_dataset small_store
              small_store_codes) as [Hworker _].
  exact (proj2 (Hworker file trials labels Hrun)).
Defined.

Lemma window_past_end_is_truncated_witness :
  small_store !! "s.mat" = Some small_session ∧
  readable_session small_session default_channels 250 None
    small_block small_block unit_factor [3; 16] [10] ∧
  converted_onset unit_factor 16 = 16 ∧
  ∃ trials labels t,
    load_trials_one_session small_store "s.mat" default_channels 250 5 None
      = Ok (trials, labels) ∧
    length trials = 3%nat ∧
    trials !! 1%nat = Some t ∧
    hd [] t = [16; 17; 18; 19] ∧
    shape t = (62, 4) ∧
    Forall (λ row, Z.of_nat (length row) < 5) t.
Proof.
  assert (small_store !! "s.mat" = Some small_session) as Hfile
    by (vm_compute; reflexivity).
  assert (readable_session small_session default_channels 250 None
            small_block small_block unit_factor [3; 16] [10]) as Hread.
  { exists 250. split; [vm_compute; reflexivity|].
    split; [reflexivity|]. split; [reflexivity|].
    split; [exists [1; 2], [2]; repeat split; simpl; lia|].
    split; [eexists; split; vm_compute; reflexivity|].
    intros Hzero. vm_compute in Hzero. discriminate Hzero. }
  split; [exact Hfile|]. split; [exact Hread|].
  split; [vm_compute; reflexivity|].
  destruct (@window_past_end_is_truncated int_samples small_store "s.mat"
              small_session default_channels 250 5 None small_block small_block
              unit_factor [3; 16] [10] Hfile Hread)
    as (trials & labels & Hrun & Hcount & Hblock1 & _).
  destruct (Hblock1 1%nat 16 20%nat eq_refl) as (Ht & _ & _ & Hshort).
  - apply (bool_decide_unpack _). vm_compute. exact I.
  - vm_compute. reflexivity.
  - exists trials, labels,
      (@signal_from int_samples small_block (converted_onset unit_factor 16)).
    split; [exact Hrun|]. split; [exact Hcount|]. split; [exact Ht|].
    split; [vm_compute; reflexivity|]. split; [vm_compute; reflexivity|].
    apply Hshort. lia.
Defined.

(** C9, as stated, fails for trials of no duration: the window of a
    trigger past the end of the signal runs past the end, and its trial
    has no sample, which is not fewer than [trial_duration_samples]. *)
Lemma empty_window_is_not_shorter :
  init "datasets" 0 None false true false false = Ok instant_dataset ∧
  trial_duration_samples instant_dataset = 0 ∧
  (downsample_factor ←! true_div 250 250; floor_div 30 downsample_factor)
    = Ok 30 ∧
  20 < 30 + trial_duration_samples instant_dataset ∧
  ∃ trials labels t,
    worker_fn instant_dataset late_store "s.mat" = Ok (trials, labels) ∧
    trials = [t] ∧
    Forall (λ row, length row = 0%nat) t ∧
    shape t = (62, 0) ∧
    ¬ Forall (λ row, Z.of_nat (length row)
                     < trial_duration_samples instant_dataset) t.
Proof.
  split; [reflexivity|]. split; [reflexivity|].
  split; [vm_compute; reflexivity|]. split; [simpl; lia|].
  eexists _, _, _. split; [vm_compute; reflexivity|].
  split; [reflexivity|]. split.
  { apply (bool_decide_unpack _). vm_compute. exact I. }
  split; [vm_compute; reflexivity|].
  intros Hshort. apply Forall_cons in Hshort as [Hshort _].
  simpl in Hshort. lia.
Qed.

Lemma no_transform_trial_shape_witness :
  init "datasets" 500 None false true false false = Ok plain_dataset ∧
  trial_duration_samples plain_dataset = 125 ∧
  output_shape plain_dataset = (62, 125) ∧
  n_channels plain_dataset = 64 - 2.
Proof.
  split; [reflexivity|].
  destruct (@no_transform_trial_shape int_samples "datasets" false true false
              false plain_dataset eq_refl) as (Hd & Hs & Hn & _).
  split; [exact Hd|]. split; [exact Hs|exact Hn].
Defined.

(** C7, as stated, fails: without a transform the trial of a 500 ms window
    that lies inside its block has shape (62, 125), not (61, 125); and a
    window that starts 17 samples before the end of its block gives a
    trial of shape (62, 17). *)
Lemma trial_shape_is_not_61_by_125 :
  init "datasets" 500 None false true false false = Ok plain_dataset ∧
  (∃ trials labels t,
     worker_fn plain_dataset one_trial_store "sub1A.mat" = Ok (trials, labels) ∧
     t ∈ trials ∧ shape t = (62, 125) ∧ shape t ≠ (61, 125)) ∧
  (∃ trials labels t,
     worker_fn plain_dataset small_store "s.mat" = Ok (trials, labels) ∧
     t ∈ trials ∧ shape t = (62, 17) ∧ shape t ≠ (61, 125)).
Proof.
  split; [reflexivity|]. split.
  - eexists _, _, _. split; [vm_compute; reflexivity|].
    split; [left|]. split; [vm_compute; reflexivity|]. vm_compute. discriminate.
  - eexists _, _, _. split; [vm_compute; reflexivity|].
    split; [left|]. split; [vm_compute; reflexivity|]. vm_compute. discriminate.
Qed.

(** The small session under a downsampling by 2: the factor is 2, the
    onsets 3, 16 and 10 convert to 1, 8 and 5, and the windows of 5
    samples are cut from the 10 samples that remain of each block. *)
Example downsampled_session_trials :
  ∃ trials labels,
    load_trials_one_session small_store "s.mat" default_channels 250 5
      (Some downsample2) = Ok (trials, labels) ∧
    hd [] <$> trials = [[2; 4; 6; 8; 10]; [16; 18]; [10; 12; 14; 16; 18]] ∧
    labels = [0; 1; 1].
Proof.
  eexists _, _. split; [vm_compute; reflexivity|].
  split; vm_compute; reflexivity.
Qed.

Lemma full_session_well_formed :
  well_formed_session plain_dataset full_session.
Proof.
  exists (flat_block 62 125), (flat_block 62 125), unit_factor,
    (replicate 4000 0), (replicate 4000 0).
  split; [|split; [|split]].
  - exists 250. split; [vm_compute; reflexivity|].
    split; [reflexivity|]. split; [reflexivity|].
    split; [|split].
    + exists (replicate 4000 1), (replicate 4000 2).
      split; [reflexivity|]. split; [reflexivity|].
      rewrite !length_replicate. lia.
    + eexists. split; vm_compute; reflexivity.
    + intros Hzero. vm_compute in Hzero. discriminate Hzero.
  - rewrite length_replicate. reflexivity.
  - rewrite length_replicate. reflexivity.
  - rewrite !fmap_replicate. apply Forall_app. split.
    + apply Forall_replicate.
      apply (bool_decide_unpack _). vm_compute. exact I.
    + apply Forall_replicate.
      apply (bool_decide_unpack _). vm_compute. exact I.
Defined.

Lemma session_and_dataset_counts_witness :
  init "datasets" 500 None false true false false = Ok plain_dataset ∧
  ∃ data labels,
    extract_parallel plain_dataset full_store (Ok (data, labels, 1024000)).
Proof.
  split; [reflexivity|].
  destruct (@session_and_dataset_counts int_samples "datasets" 500 None false
              true false false plain_dataset full_store eq_refl)
    as (_ & _ & _ & Hbuild).
  apply Hbuild; [|simpl; lia].
  intros files file Hfiles Hin. exists full_session.
  split; [|exact full_session_well_formed].
  unfold full_store. rewrite lookup_gset_to_gmap_Some. split; [|reflexivity].
  apply elem_of_list_to_set. unfold plain_files. rewrite Hfiles. exact Hin.
Defined.
